(** * monitor.c: per-user CPU usage monitor

    A shallow embedding of [src/Task2A/monitor.c] and the properties of its
    sampling and delta-accounting engine.

    - C integers are mathematical integers [Z] together with the range of
      their type.  Unsigned arithmetic wraps around modulo [2^64]; signed
      arithmetic that leaves the range of its type, a division by zero and
      an array access outside its bounds have no defined behaviour in C and
      are reported as a [fault].
    - The static tables [pid_slots], [user_table] (with [user_count] its
      length) and [hz] make up the [state] threaded through every function.
    - /proc, the passwd database and libc's [qsort] are the environment:
      a [procfs] value describes what one pass over /proc observes. *)

From Stdlib Require Import ZArith List String Ascii Lia.
From Stdlib Require Import Sorting.Permutation Sorting.Sorted DecimalString.
From Stdlib Require DecimalN DecimalPos.
From stdpp Require Import base option gmap list.

Local Open Scope Z_scope.

(** ** Undefined behaviour as a result *)

Inductive fault : Type :=
| SignedOverflow
| DivisionByZero
| OutOfBounds.

Inductive res (A : Type) : Type :=
| Ok (a : A)
| Ub (f : fault).

Arguments Ok {A} a.
Arguments Ub {A} f.

Definition bind {A B : Type} (m : res A) (k : A -> res B) : res B :=
  match m with
  | Ok a => k a
  | Ub f => Ub f
  end.

Notation "'let*' x ':=' m 'in' k" := (bind m (fun x => k))
  (at level 10, x pattern, m at level 100, k at level 200, only parsing).

(** ** Machine integers (LP64) *)

Definition INT_MAX : Z := 2147483647.
Definition INT_MIN : Z := -2147483648.
Definition LLONG_MAX : Z := 9223372036854775807.
Definition LLONG_MIN : Z := -9223372036854775808.
Definition ULONG_MODULUS : Z := 18446744073709551616.

Definition in_int (z : Z) : bool := (INT_MIN <=? z) && (z <=? INT_MAX).
Definition in_llong (z : Z) : bool := (LLONG_MIN <=? z) && (z <=? LLONG_MAX).

Definition as_int (z : Z) : res Z := if in_int z then Ok z else Ub SignedOverflow.
Definition as_llong (z : Z) : res Z := if in_llong z then Ok z else Ub SignedOverflow.

Definition int_add (a b : Z) : res Z := as_int (a + b).
Definition int_mul (a b : Z) : res Z := as_int (a * b).

Definition ll_add (a b : Z) : res Z := as_llong (a + b).
Definition ll_sub (a b : Z) : res Z := as_llong (a - b).
Definition ll_mul (a b : Z) : res Z := as_llong (a * b).
(** C's [/] truncates towards zero. *)
Definition ll_div (a b : Z) : res Z :=
  if b =? 0 then Ub DivisionByZero else as_llong (a ÷ b).

(** [unsigned long] addition, and the conversion [(long long)] of its
    result. *)
Definition ulong_add (a b : Z) : Z := (a + b) mod ULONG_MODULUS.
Definition to_llong (u : Z) : Z := if u <=? LLONG_MAX then u else u - ULONG_MODULUS.

(** ** Data model *)

Definition PID_MAX : Z := 65536.
Definition MAX_USERS : Z := 4096.
(** [(uid_t)-1] *)
Definition UID_NONE : Z := 4294967295.

Module PidSlot.

(** Per-PID state kept between samples. *)
Record t : Type := mk { active : Z; uid : Z; prev_jiffies : Z }.

(** Static storage is zero-initialised. *)
Definition zero : t := mk 0 0 0.

End PidSlot.

Module UserEntry.

(** Per-user accumulator. *)
Record t : Type := mk { uid : Z; cpu_ms : Z; name : string }.

Definition set_cpu_ms (v : Z) (u : t) : t := mk (uid u) v (name u).

End UserEntry.

Record state : Type := mkState {
  pid_slots : gmap Z PidSlot.t;
  user_table : list UserEntry.t;
  hz : Z
}.

Definition user_count (st : state) : Z := Z.of_nat (length (user_table st)).

Definition set_slots (m : gmap Z PidSlot.t) (st : state) : state :=
  mkState m (user_table st) (hz st).
Definition set_users (t : list UserEntry.t) (st : state) : state :=
  mkState (pid_slots st) t (hz st).
Definition set_hz (h : Z) (st : state) : state :=
  mkState (pid_slots st) (user_table st) h.

(** The content of [pid_slots[pid]]. *)
Definition slot_at (st : state) (pid : Z) : PidSlot.t :=
  default PidSlot.zero (pid_slots st !! pid).

Definition store_slot (pid : Z) (s : PidSlot.t) (st : state) : state :=
  set_slots (<[pid := s]> (pid_slots st)) st.

(** [&pid_slots[pid]]: the index has to lie inside the array. *)
Definition slot_index (pid : Z) : res Z :=
  if (0 <=? pid) && (pid <? PID_MAX) then Ok pid else Ub OutOfBounds.

(** The tables before [main] runs. *)
Definition initial_state : state := mkState ∅ [] 0.

(** ** The environment *)

(** What one pass over /proc observes: the names [readdir] returns ([None]
    when [opendir] fails); for a pid, fields 14 and 15 of /proc/<pid>/stat as
    [strtoul] yields them ([None] on any of the error returns of
    [read_proc_stat]); and the owner of the directory /proc/<pid> ([None]
    when [stat] fails). *)
Record procfs : Type := mkProcfs {
  proc_dir : option (list string);
  stat_times : Z -> option (Z * Z);
  dir_owner : Z -> option Z
}.

Section Monitor.

(** The passwd database: [getpwuid(uid)->pw_name]. *)
Variable getpwuid : Z -> option string.

(** ** Helpers *)

(** [snprintf(u->name, 64, ...)] keeps at most 63 characters. *)
Definition snprintf64 (s : string) : string := String.substring 0 63 s.

Definition format_u (uid : Z) : string :=
  NilZero.string_of_uint (N.to_uint (Z.to_N uid)).

Definition user_name (uid : Z) : string :=
  match getpwuid uid with
  | Some pw_name => snprintf64 pw_name
  | None => snprintf64 (format_u uid)
  end.

(** The [for] loop of [find_user]: index of the first entry owned by
    [uid]. *)
Fixpoint scan_users (uid : Z) (tbl : list UserEntry.t) (i : nat) : option nat :=
  match tbl with
  | [] => None
  | e :: tl => if UserEntry.uid e =? uid then Some i else scan_users uid tl (S i)
  end.

(** [find_user]: the result pointer is an index into [user_table], [None]
    is [NULL]. *)
Definition find_user (uid : Z) (st : state) : option nat * state :=
  match scan_users uid (user_table st) 0 with
  | Some i => (Some i, st)
  | None =>
      if user_count st >=? MAX_USERS then (None, st)
      else (Some (length (user_table st)),
            set_users (user_table st ++ [UserEntry.mk uid 0 (user_name uid)]) st)
  end.

(** [u->cpu_ms += ms] *)
Definition add_cpu_ms (i : nat) (ms : Z) (st : state) : res state :=
  match user_table st !! i with
  | Some e =>
      let* v := ll_add (UserEntry.cpu_ms e) ms in
      Ok (set_users (<[i := UserEntry.set_cpu_ms v e]> (user_table st)) st)
  | None => Ub OutOfBounds
  end.

(** [UserEntry *u = find_user(uid); if (u) u->cpu_ms += ms;] *)
Definition credit (uid ms : Z) (st : state) : res state :=
  match find_user uid st with
  | (Some i, st') => add_cpu_ms i ms st'
  | (None, st') => Ok st'
  end.

Definition read_proc_stat (fs : procfs) (pid : Z) : Z :=
  match stat_times fs pid with
  | None => -1
  | Some (utime, stime) => to_llong (ulong_add utime stime)
  end.

Definition read_proc_uid (fs : procfs) (pid : Z) : Z :=
  match dir_owner fs pid with
  | None => UID_NONE
  | Some st_uid => st_uid
  end.

(** ** Sampling logic *)

Definition isdigit (c : ascii) : bool :=
  let n := Z.of_nat (nat_of_ascii c) in (48 <=? n) && (n <=? 57).

(** The loop over [de->d_name]: the pair [(valid, pid)] it leaves. *)
Fixpoint scan_name (s : string) (pid : Z) : res (Z * Z) :=
  match s with
  | EmptyString => Ok (1, pid)
  | String c s' =>
      if isdigit c then
        let* t := int_mul pid 10 in
        let* pid' := int_add t (Z.of_nat (nat_of_ascii c) - 48) in
        scan_name s' pid'
      else Ok (0, pid)
  end.

(** The body of the loop from [PidSlot *slot = &pid_slots[pid]] on. *)
Definition do_proc (is_baseline pid jiffies uid : Z) (st : state) : res state :=
  let* p := slot_index pid in
  let slot := slot_at st p in
  if (PidSlot.active slot =? 0) || negb (PidSlot.uid slot =? uid) then
    if negb (is_baseline =? 0) then
      Ok (store_slot p (PidSlot.mk 1 uid jiffies) st)
    else
      let* t := ll_mul jiffies 1000 in
      let* ms := ll_div t (hz st) in
      let* st1 := (if ms >? 0 then credit uid ms st else Ok st) in
      Ok (store_slot p (PidSlot.mk 1 uid jiffies) st1)
  else if is_baseline =? 0 then
    let* d := ll_sub jiffies (PidSlot.prev_jiffies slot) in
    let delta := if d <? 0 then 0 else d in
    let st1 := store_slot p (PidSlot.mk (PidSlot.active slot) (PidSlot.uid slot) jiffies) st in
    if delta >? 0 then
      let* t := ll_mul delta 1000 in
      let* ms := ll_div t (hz st1) in
      credit uid ms st1
    else Ok st1
  else Ok st.

(** One iteration of the [readdir] loop. *)
Definition do_entry (is_baseline : Z) (fs : procfs) (d_name : string) (st : state) : res state :=
  let* vp := scan_name d_name 0 in
  let '(valid, pid) := vp in
  if (valid =? 0) || (pid <=? 0) || (pid >=? PID_MAX) then Ok st
  else
    let jiffies := read_proc_stat fs pid in
    if jiffies <? 0 then Ok st
    else
      let uid := read_proc_uid fs pid in
      if uid =? UID_NONE then Ok st
      else do_proc is_baseline pid jiffies uid st.

Fixpoint readdir_loop (is_baseline : Z) (fs : procfs) (names : list string) (st : state) : res state :=
  match names with
  | [] => Ok st
  | d_name :: rest =>
      let* st' := do_entry is_baseline fs d_name st in
      readdir_loop is_baseline fs rest st'
  end.

Definition do_sample (is_baseline : Z) (fs : procfs) (st : state) : res state :=
  match proc_dir fs with
  | None => Ok st
  | Some names => readdir_loop is_baseline fs names st
  end.

(** ** Sorting and output *)

Definition cmp_cpu_desc (a b : UserEntry.t) : Z :=
  let da := UserEntry.cpu_ms a in
  let db := UserEntry.cpu_ms b in
  if db >? da then 1 else if db <? da then -1 else 0.

(** libc's [qsort] is only known by its contract: it permutes the array, and
    afterwards no element compares greater than a later one.  Nothing is
    promised about elements that compare equal.  The functions that call it
    take it as their first argument. *)
Definition sorter : Type :=
  (UserEntry.t -> UserEntry.t -> Z) -> list UserEntry.t -> list UserEntry.t.

Definition qsort_contract (qsort : sorter) : Prop :=
  forall tbl,
    Permutation tbl (qsort cmp_cpu_desc tbl) /\
    StronglySorted (fun a b => cmp_cpu_desc a b <= 0) (qsort cmp_cpu_desc tbl).

(** A line of the table: rank, user name, milliseconds. *)
Record row : Type := mkRow { row_rank : Z; row_user : string; row_ms : Z }.

(** The printing loop of [main]; [rank] never exceeds the number of entries
    plus one. *)
Fixpoint print_rows (tbl : list UserEntry.t) (rank : Z) : list row :=
  match tbl with
  | [] => []
  | u :: tl =>
      if UserEntry.cpu_ms u <=? 0 then print_rows tl rank
      else mkRow rank (UserEntry.name u) (UserEntry.cpu_ms u) :: print_rows tl (rank + 1)
  end.

(** Phase 3 of [main]. *)
Definition report (qsort : sorter) (st : state) : list row :=
  print_rows (qsort cmp_cpu_desc (user_table st)) 1.

(** ** main *)

Definition isspace (c : ascii) : bool :=
  let n := Z.of_nat (nat_of_ascii c) in (n =? 32) || ((9 <=? n) && (n <=? 13)).

Fixpoint skip_spaces (s : string) : string :=
  match s with
  | String c s' => if isspace c then skip_spaces s' else s
  | EmptyString => s
  end.

Fixpoint leading_digits (s : string) (acc : Z) : Z :=
  match s with
  | String c s' =>
      if isdigit c then leading_digits s' (acc * 10 + (Z.of_nat (nat_of_ascii c) - 48))
      else acc
  | EmptyString => acc
  end.

(** libc's [atoi] as ISO C defines it: white space, an optional sign, then
    the longest run of decimal digits (0 when there is none); a value that
    does not fit [int] has no defined behaviour. *)
Definition atoi (s : string) : res Z :=
  match skip_spaces s with
  | String "-"%char s' => as_int (- leading_digits s' 0)
  | String "+"%char s' => as_int (leading_digits s' 0)
  | s' => as_int (leading_digits s' 0)
  end.

(** What a run of the program leaves behind: its exit status, the number of
    passes over /proc it made, what it wrote to the standard error stream
    and the rows of the table on standard output. *)
Record outcome : Type := mkOutcome {
  exit_status : Z;
  passes : nat;
  stderr : list string;
  table : list row
}.

(** [hz = sysconf(_SC_CLK_TCK); if (hz <= 0) hz = 100;] *)
Definition clock_ticks (clk_tck : Z) : Z := if clk_tck <=? 0 then 100 else clk_tck.

(** Phase 2: [for (i = 0; i < duration; i++) { sleep(1); do_sample(0); }].
    The pass numbered [k] sees /proc as [proc k]; the loop returns the
    number of the next pass with the state. *)
Fixpoint sample_loop (n : nat) (proc : nat -> procfs) (k : nat) (st : state) : res (nat * state) :=
  match n with
  | O => Ok (k, st)
  | S n' =>
      let* st' := do_sample 0 (proc k) st in
      sample_loop n' proc (S k) st'
  end.

(** [main] after its arguments are accepted. *)
Definition monitor (qsort : sorter) (duration clk_tck : Z) (proc : nat -> procfs) : res outcome :=
  let st0 := set_hz (clock_ticks clk_tck) initial_state in
  let* st1 := do_sample 1 (proc O) st0 in
  let* r := sample_loop (Z.to_nat duration) proc 1%nat st1 in
  let '(k, st2) := r in
  Ok (mkOutcome 0 k [] (report qsort st2)).

Definition main (qsort : sorter) (argv : list string) (clk_tck : Z) (proc : nat -> procfs) : res outcome :=
  if negb (Z.of_nat (length argv) =? 2) then
    Ok (mkOutcome 1 0 [("Usage: " ++ nth 0 argv EmptyString ++ " <seconds>")%string] [])
  else
    let* duration := atoi (nth 1 argv EmptyString) in
    if duration <=? 0 then
      Ok (mkOutcome 1 0 ["Error: duration must be a positive integer."%string] [])
    else monitor qsort duration clk_tck proc.

(** ** The text of /proc/<pid>/stat

    [read_proc_stat] down to the characters of the file.  The functions of
    libc it calls are modelled as ISO C defines them for base 10. *)

Definition LONG_MAX : Z := 9223372036854775807.
Definition LONG_MIN : Z := -9223372036854775808.
Definition ULONG_MAX : Z := 18446744073709551615.

(** The C string a buffer holds: the characters before the first NUL. *)
Fixpoint c_str (s : string) : string :=
  match s with
  | EmptyString => EmptyString
  | String c s' => if Ascii.eqb c "000"%char then EmptyString else String c (c_str s')
  end.

(** The characters one [fgets] reads when at most [n] fit: up to and
    including the first newline. *)
Fixpoint read_line (n : nat) (content : string) : string :=
  match n, content with
  | S n', String c s' =>
      if Ascii.eqb c "010"%char then String c EmptyString
      else String c (read_line n' s')
  | _, _ => EmptyString
  end.

(** [fgets(buf, size, f)] on a file just opened, and [buf] read as a C
    string afterwards; [None] is [NULL] (nothing to read). *)
Definition fgets (size : nat) (content : string) : option string :=
  match content with
  | EmptyString => None
  | String _ _ => Some (c_str (read_line (size - 1) content))
  end.

(** [p = strrchr(buf, c); p++]: the text after the last [c], [None] when
    [strrchr] returns [NULL]. *)
Fixpoint after_last (c : ascii) (s : string) : option string :=
  match s with
  | EmptyString => None
  | String a s' =>
      match after_last c s' with
      | Some r => Some r
      | None => if Ascii.eqb a c then Some s' else None
      end
  end.

(** [while ( *p == ' ' || *p == '\t') p++;] *)
Fixpoint skip_blanks (s : string) : string :=
  match s with
  | String c s' =>
      if Ascii.eqb c " "%char || Ascii.eqb c "009"%char then skip_blanks s' else s
  | EmptyString => s
  end.

(** The longest run of decimal digits at the head of [s]: its value on top
    of [acc], and what follows it. *)
Fixpoint digits (s : string) (acc : Z) : Z * string :=
  match s with
  | String c s' =>
      if isdigit c then digits s' (acc * 10 + (Z.of_nat (nat_of_ascii c) - 48))
      else (acc, s)
  | EmptyString => (acc, s)
  end.

(** The subject sequence of [strtol] and [strtoul]: white space, an optional
    sign, at least one digit.  The result is the sign, the magnitude and the
    end pointer; [None] when no conversion is performed ([end == nptr]). *)
Definition subject (s : string) : option (bool * Z * string) :=
  let signed :=
    match skip_spaces s with
    | String "-"%char r => (true, r)
    | String "+"%char r => (false, r)
    | r => (false, r)
    end in
  match snd signed with
  | String c _ =>
      if isdigit c then
        let r := digits (snd signed) 0 in Some (fst signed, fst r, snd r)
      else None
  | EmptyString => None
  end.

(** [strtol(p, &end, 10)]: out of range values are clamped. *)
Definition strtol (s : string) : option (Z * string) :=
  match subject s with
  | None => None
  | Some (neg, v, e) =>
      let x := if neg then - v else v in
      Some (Z.max LONG_MIN (Z.min LONG_MAX x), e)
  end.

(** [strtoul(p, &end, 10)]: a magnitude out of range gives [ULONG_MAX], a
    minus sign negates in the unsigned type. *)
Definition strtoul (s : string) : option (Z * string) :=
  match subject s with
  | None => None
  | Some (neg, v, e) =>
      Some (if v >? ULONG_MAX then ULONG_MAX
            else if neg then (- v) mod ULONG_MODULUS else v, e)
  end.

(** [for (i = 0; i < n; i++) { strtol(p, &end, 10); if (end == p) return -1;
    p = end; }] *)
Fixpoint skip_fields (n : nat) (p : string) : option string :=
  match n with
  | O => Some p
  | S n' =>
      match strtol p with
      | None => None
      | Some (_, e) => skip_fields n' e
      end
  end.

(** [read_proc_stat] from [strrchr] on: fields 14 and 15 of the line in
    [buf], [None] for each [return -1]. *)
Definition stat_fields (buf : string) : option (Z * Z) :=
  match after_last ")"%char buf with
  | None => None
  | Some p =>
      match skip_blanks p with
      | EmptyString => None
      | String _ p1 =>
          match skip_fields 10 p1 with
          | None => None
          | Some p2 =>
              match strtoul p2 with
              | None => None
              | Some (utime, p3) =>
                  match strtoul p3 with
                  | None => None
                  | Some (stime, _) => Some (utime, stime)
                  end
              end
          end
      end
  end.

(** [fopen], [fgets] and the walk, for the content of the file ([None] when
    it cannot be opened). *)
Definition stat_of_file (file : option string) : option (Z * Z) :=
  match file with
  | None => None
  | Some content =>
      match fgets 4096 content with
      | None => None
      | Some buf => stat_fields buf
      end
  end.

(** /proc given by the content of its stat files. *)
Definition procfs_of (names : option (list string)) (stat_file : Z -> option string)
    (owner : Z -> option Z) : procfs :=
  mkProcfs names (fun pid => stat_of_file (stat_file pid)) owner.

(** ** Observations used by the specification *)

(** The [cpu_ms] accumulated for an owner: that of the entry [find_user]
    would return, 0 while the owner has none. *)
Fixpoint cpu_of_table (uid : Z) (tbl : list UserEntry.t) : Z :=
  match tbl with
  | [] => 0
  | e :: tl => if UserEntry.uid e =? uid then UserEntry.cpu_ms e else cpu_of_table uid tl
  end.

Definition cpu_of (uid : Z) (st : state) : Z := cpu_of_table uid (user_table st).

(** [find_user] will not return [NULL] for this owner. *)
Definition can_track (uid : Z) (st : state) : bool :=
  match scan_users uid (user_table st) 0 with
  | Some _ => true
  | None => user_count st <? MAX_USERS
  end.

(** The pass over [fs] reaches the classification for entry [d_name]: the
    name is the decimal pid, both reads succeed and give [jiffies] and
    [uid]. *)
Definition observes (fs : procfs) (d_name : string) (pid jiffies uid : Z) : Prop :=
  scan_name d_name 0 = Ok (1, pid) /\
  0 < pid < PID_MAX /\
  read_proc_stat fs pid = jiffies /\ 0 <= jiffies /\
  read_proc_uid fs pid = uid /\ uid <> UID_NONE.

Definition all_digits (s : string) : bool :=
  forallb isdigit (list_ascii_of_string s).

(** The user table after some more sampling: the entries that were there
    keep their place, owner and name and have not lost time; the ones that
    were added hold no negative time. *)
Inductive grows : list UserEntry.t -> list UserEntry.t -> Prop :=
| grows_new added :
    Forall (fun e => 0 <= UserEntry.cpu_ms e) added -> grows [] added
| grows_kept e e' tl tl' :
    UserEntry.uid e' = UserEntry.uid e ->
    UserEntry.name e' = UserEntry.name e ->
    UserEntry.cpu_ms e <= UserEntry.cpu_ms e' ->
    grows tl tl' ->
    grows (e :: tl) (e' :: tl').

(** The table with the time of [uid] set to [v]: in the first entry of that
    owner, or in a new last entry.  [credit] is characterised with it. *)
Fixpoint with_cpu (uid v : Z) (tbl : list UserEntry.t) : list UserEntry.t :=
  match tbl with
  | [] => [UserEntry.mk uid v (user_name uid)]
  | e :: tl =>
      if UserEntry.uid e =? uid then UserEntry.set_cpu_ms v e :: tl
      else e :: with_cpu uid v tl
  end.

(** Every recorded counter is a non-negative [long long]. *)
Definition slots_in_range (st : state) : Prop :=
  forall pid, 0 <= PidSlot.prev_jiffies (slot_at st pid) <= LLONG_MAX.

(** The test [!slot->active || slot->uid != uid] of [do_sample]. *)
Definition first_sight (slot : PidSlot.t) (uid : Z) : bool :=
  (PidSlot.active slot =? 0) || negb (PidSlot.uid slot =? uid).

(** One iteration of the [readdir] loop at which a pass meets an entry: the
    view of /proc, the name read, and the state before and after. *)
Record sighting : Type := mkSighting {
  view : procfs;
  entry : string;
  before : state;
  after : state
}.

Definition counter_of (pid : Z) (s : sighting) : Z := read_proc_stat (view s) pid.

(** The iteration [s] of [do_sample(is_baseline)] reads the process [pid]
    owned by [uid], and has defined behaviour. *)
Definition sees (is_baseline pid uid : Z) (s : sighting) : Prop :=
  observes (view s) (entry s) pid (counter_of pid s) uid /\
  do_entry is_baseline (view s) (entry s) (before s) = Ok (after s).

(** The regular samples that see [pid] after the state [last] was reached:
    between two sightings the slot of [pid] is not written (every other
    entry of a pass has another pid) and [hz] is fixed. *)
Fixpoint followed (pid uid : Z) (last : state) (ticks : list sighting) : Prop :=
  match ticks with
  | [] => True
  | s :: rest =>
      slot_at (before s) pid = slot_at last pid /\
      hz (before s) = hz last /\
      sees 0 pid uid s /\
      followed pid uid (after s) rest
  end.

(** A process recorded by the baseline pass at [base] and seen by every
    regular sample of [ticks]. *)
Definition watched (pid uid : Z) (base : sighting) (ticks : list sighting) : Prop :=
  first_sight (slot_at (before base) pid) uid = true /\
  sees 1 pid uid base /\
  followed pid uid (after base) ticks.

(** Milliseconds the owner gains at one sighting, and over several. *)
Definition gained (uid : Z) (s : sighting) : Z :=
  cpu_of uid (after s) - cpu_of uid (before s).

Definition attributed (uid : Z) (l : list sighting) : Z :=
  fold_right Z.add 0 (map (gained uid) l).

(** The sum of the conversions of the successive deltas. *)
Fixpoint per_tick_ms (h prev : Z) (cs : list Z) : Z :=
  match cs with
  | [] => 0
  | c :: rest => (c - prev) * 1000 / h + per_tick_ms h c rest
  end.

Fixpoint nondecreasing (prev : Z) (cs : list Z) : Prop :=
  match cs with
  | [] => True
  | c :: rest => prev <= c /\ nondecreasing c rest
  end.

(** What the specification calls a positive-integer parameter: a non-empty
    run of decimal digits whose value is not zero. *)
Definition positive_integer_text (s : string) : bool :=
  match s with
  | EmptyString => false
  | String _ _ => all_digits s && (0 <? leading_digits s 0)
  end.

(** ** A reference environment

    An insertion sort that meets the contract of [qsort], a system without
    passwd entries, and /proc directories with a single process: they
    instantiate the environment in the examples below. *)

Fixpoint insert_sorted (cmp : UserEntry.t -> UserEntry.t -> Z) (x : UserEntry.t)
    (l : list UserEntry.t) : list UserEntry.t :=
  match l with
  | [] => [x]
  | y :: tl => if cmp x y <=? 0 then x :: y :: tl else y :: insert_sorted cmp x tl
  end.

Definition insertion_sort (cmp : UserEntry.t -> UserEntry.t -> Z)
    (l : list UserEntry.t) : list UserEntry.t :=
  fold_right (insert_sorted cmp) [] l.

Definition no_passwd : Z -> option string := fun _ => None.

(** /proc with the entries [self], [d_name] and [sys], where process [pid]
    has the given times and owner. *)
Definition proc_with (d_name : string) (pid utime stime owner : Z) : procfs :=
  mkProcfs (Some ["self"%string; d_name; "sys"%string])
           (fun p => if p =? pid then Some (utime, stime) else None)
           (fun p => if p =? pid then Some owner else None).

Definition empty_proc : procfs :=
  mkProcfs (Some ["self"%string; "sys"%string]) (fun _ => None) (fun _ => None).

(** A run at 100 ticks per second in which process 7 of user 1000 is
    recorded by the baseline pass with 100 jiffies and seen again with 130
    and with 155 jiffies. *)
Definition demo_start : state := set_hz 100 initial_state.

Definition demo_recorded : state :=
  store_slot 7 (PidSlot.mk 1 1000 100) demo_start.

Definition demo_after1 : state :=
  set_users [UserEntry.mk 1000 300 "1000"]
            (store_slot 7 (PidSlot.mk 1 1000 130) demo_recorded).

Definition demo_after2 : state :=
  set_users [UserEntry.mk 1000 550 "1000"]
            (store_slot 7 (PidSlot.mk 1 1000 155) demo_after1).

Definition demo_base : sighting :=
  mkSighting (proc_with "7" 7 60 40 1000) "7" demo_start demo_recorded.

Definition demo_tick1 : sighting :=
  mkSighting (proc_with "7" 7 80 50 1000) "7" demo_recorded demo_after1.

Definition demo_tick2 : sighting :=
  mkSighting (proc_with "7" 7 90 65 1000) "7" demo_after1 demo_after2.

(** The same process seen twice more with its baseline counter. *)
Definition demo_idle : sighting :=
  mkSighting (proc_with "7" 7 60 40 1000) "7" demo_recorded demo_recorded.

(** A run at 1024 ticks per second in which the counter of process 7 goes
    from 100 at the baseline to 101 and then 102. *)
Definition slow_start : state := set_hz 1024 initial_state.

Definition slow_recorded : state :=
  store_slot 7 (PidSlot.mk 1 1000 100) slow_start.

Definition slow_after1 : state :=
  set_users [UserEntry.mk 1000 0 "1000"]
            (store_slot 7 (PidSlot.mk 1 1000 101) slow_recorded).

Definition slow_after2 : state :=
  store_slot 7 (PidSlot.mk 1 1000 102) slow_after1.

Definition slow_base : sighting :=
  mkSighting (proc_with "7" 7 60 40 1000) "7" slow_start slow_recorded.

Definition slow_tick1 : sighting :=
  mkSighting (proc_with "7" 7 60 41 1000) "7" slow_recorded slow_after1.

Definition slow_tick2 : sighting :=
  mkSighting (proc_with "7" 7 61 41 1000) "7" slow_after1 slow_after2.

(** ** Further observations

    Used to state what the parsers accept and what the tables keep. *)

Fixpoint has_char (c : ascii) (s : string) : bool :=
  match s with
  | EmptyString => false
  | String a s' => Ascii.eqb a c || has_char c s'
  end.

Definition starts_with_digit (s : string) : bool :=
  match s with
  | String c _ => isdigit c
  | EmptyString => false
  end.

(** A text without NUL and without newline. *)
Definition plain (s : string) : bool :=
  negb (has_char "000"%char s) && negb (has_char "010"%char s).

(** A character that can stand for the state of a process in the stat
    line: not a blank, not a line or string terminator, not a closing
    parenthesis. *)
Definition state_char (c : ascii) : bool :=
  negb (Ascii.eqb c " "%char) && negb (Ascii.eqb c "009"%char) &&
  negb (Ascii.eqb c "000"%char) && negb (Ascii.eqb c "010"%char) &&
  negb (Ascii.eqb c ")"%char).

(** A signed number in decimal, as the kernel prints it. *)
Definition format_d (z : Z) : string :=
  if z <? 0 then String "-"%char (format_u (- z)) else format_u z.

(** A line of /proc/<pid>/stat: [head] is the text before the closing
    parenthesis of the command name (the pid and the name, which may hold
    spaces and parentheses), then the state, the fields 4 to 13, utime, stime and
    the rest of the line. *)
Definition stat_line (head : string) (state : ascii) (fields : list Z)
    (utime stime : Z) (rest : string) : string :=
  (head ++ String ")"%char (String " "%char (String state
     (fold_right (fun f r => String " "%char (format_d f ++ r))
        (String " "%char (format_u utime ++ String " "%char (format_u stime ++ rest)))
        fields))))%string.

(** The value of a decimal numeral read from its first digit, on top of
    [acc]. *)
Fixpoint uint_value (d : Decimal.uint) (acc : Z) : Z :=
  match d with
  | Decimal.Nil => acc
  | Decimal.D0 l => uint_value l (acc * 10 + 0)
  | Decimal.D1 l => uint_value l (acc * 10 + 1)
  | Decimal.D2 l => uint_value l (acc * 10 + 2)
  | Decimal.D3 l => uint_value l (acc * 10 + 3)
  | Decimal.D4 l => uint_value l (acc * 10 + 4)
  | Decimal.D5 l => uint_value l (acc * 10 + 5)
  | Decimal.D6 l => uint_value l (acc * 10 + 6)
  | Decimal.D7 l => uint_value l (acc * 10 + 7)
  | Decimal.D8 l => uint_value l (acc * 10 + 8)
  | Decimal.D9 l => uint_value l (acc * 10 + 9)
  end.

(** A computation whose only possible fault is a signed overflow. *)
Definition only_overflow {A : Type} (m : res A) : Prop :=
  forall f, m = Ub f -> f = SignedOverflow.

(** A slot is either untouched or holds an active record with a valid owner
    and a counter that is a non-negative [long long]. *)
Definition slot_ok (s : PidSlot.t) : Prop :=
  s = PidSlot.zero \/
  (PidSlot.active s = 1 /\ PidSlot.uid s <> UID_NONE /\
   0 <= PidSlot.prev_jiffies s <= LLONG_MAX).

Definition slots_ok (st : state) : Prop := forall pid, slot_ok (slot_at st pid).

Definition owners_distinct (st : state) : Prop :=
  List.NoDup (map UserEntry.uid (user_table st)).

Definition names_fit (st : state) : Prop :=
  Forall (fun e => (String.length (UserEntry.name e) <= 63)%nat) (user_table st).

(** A second sort that meets the contract of [qsort], and a user table
    without room. *)
Definition reverse_insertion_sort (cmp : UserEntry.t -> UserEntry.t -> Z)
    (l : list UserEntry.t) : list UserEntry.t :=
  insertion_sort cmp (rev l).

Definition full_table : list UserEntry.t :=
  map (fun i => UserEntry.mk (Z.of_nat i) 0 EmptyString) (seq 0 4096).

Definition full_state : state := set_users full_table demo_start.

(** The full table when pid 7 is recorded for user 1000 with 100 jiffies. *)
Definition full_recorded : state :=
  store_slot 7 (PidSlot.mk 1 1000 100) full_state.

(** The stat file of a process 1234 whose name holds spaces and
    parentheses, and the stat file of a process 12 whose name holds a
    newline. *)
Definition weird_head : string := "1234 (my (weird) proc".

Definition weird_fields : list Z := [1; 1234; 1234; 0; -1; 4194304; 100; 0; 0; 0].

Definition weird_rest : string := " 0 0 20 0 1 0 100 1000 10".

Definition weird_files (pid : Z) : option string :=
  if pid =? 1234 then
    Some (stat_line weird_head "S"%char weird_fields 57 43 weird_rest
          ++ String "010"%char EmptyString)%string
  else None.

Definition broken_files (pid : Z) : option string :=
  if pid =? 12 then
    Some ("12 (two" ++ String "010"%char "lines) S 1 12 12 0 -1 0 0 0 0 0 5 6 0")%string
  else None.

(** A user table with two owners without time. *)
Definition tied_state : state :=
  set_users [UserEntry.mk 1 1500 "A"; UserEntry.mk 2 0 "B";
             UserEntry.mk 3 3200 "C"; UserEntry.mk 4 0 "D"] demo_start.

(** ** Lemmas on results and machine integers *)

Ltac res_cases H :=
  match type of H with
  | bind ?m _ = _ =>
      let E := fresh "E" in
      destruct m eqn:E; cbn [bind] in H; [ | discriminate H ]
  end.

Tactic Notation "res_split" hyp(H) "as" ident(v) ident(E) :=
  match type of H with
  | bind ?m _ = _ =>
      destruct m as [v|] eqn:E; cbn [bind] in H; [ | discriminate H ]
  end.

Lemma as_llong_ok z v : as_llong z = Ok v -> v = z /\ LLONG_MIN <= z <= LLONG_MAX.
Proof.
  unfold as_llong, in_llong. intros H.
  destruct (LLONG_MIN <=? z) eqn:E1; destruct (z <=? LLONG_MAX) eqn:E2;
    cbn in H; try discriminate.
  inversion H; subst. lia.
Qed.

Lemma as_llong_in z : LLONG_MIN <= z <= LLONG_MAX -> as_llong z = Ok z.
Proof.
  intros [H1 H2]. unfold as_llong, in_llong.
  apply Z.leb_le in H1, H2. now rewrite H1, H2.
Qed.

Lemma as_llong_not_oob z : as_llong z <> Ub OutOfBounds.
Proof. unfold as_llong. destruct (in_llong z); discriminate. Qed.

Lemma as_int_ok z v : as_int z = Ok v -> v = z /\ INT_MIN <= z <= INT_MAX.
Proof.
  unfold as_int, in_int. intros H.
  destruct (INT_MIN <=? z) eqn:E1; destruct (z <=? INT_MAX) eqn:E2;
    cbn in H; try discriminate.
  inversion H; subst. lia.
Qed.

Lemma as_int_in z : INT_MIN <= z <= INT_MAX -> as_int z = Ok z.
Proof.
  intros [H1 H2]. unfold as_int, in_int.
  apply Z.leb_le in H1, H2. now rewrite H1, H2.
Qed.

Lemma ll_div_ok a b v : ll_div a b = Ok v -> b <> 0 /\ v = a ÷ b.
Proof.
  unfold ll_div. destruct (b =? 0) eqn:E; [discriminate|].
  intros H. apply as_llong_ok in H. apply Z.eqb_neq in E. tauto.
Qed.

Lemma ll_div_not_oob a b : ll_div a b <> Ub OutOfBounds.
Proof.
  unfold ll_div. destruct (b =? 0); [discriminate | apply as_llong_not_oob].
Qed.

(** For the operands the monitor divides, C's truncating division is the
    flooring one. *)
Lemma quot_is_div a b : 0 <= a -> 0 < b -> a ÷ b = a / b.
Proof. intros. apply Z.quot_div_nonneg; lia. Qed.

Lemma ms_in_range a b :
  0 <= a -> a <= LLONG_MAX -> 0 < b -> ll_div a b = Ok (a / b).
Proof.
  intros Ha Hm Hb. unfold ll_div.
  destruct (b =? 0) eqn:E; [apply Z.eqb_eq in E; lia|].
  rewrite quot_is_div by lia. apply as_llong_in.
  assert (0 <= a / b) by (apply Z.div_pos; lia).
  assert (a / b <= a) by (apply Z.div_le_upper_bound; nia).
  unfold LLONG_MIN. lia.
Qed.

Lemma read_proc_stat_range fs pid :
  LLONG_MIN <= read_proc_stat fs pid <= LLONG_MAX.
Proof.
  unfold read_proc_stat. destruct (stat_times fs pid) as [[u s]|].
  - unfold to_llong, ulong_add.
    pose proof (Z.mod_pos_bound (u + s) ULONG_MODULUS eq_refl) as Hb.
    destruct (_ <=? LLONG_MAX) eqn:E.
    + apply Z.leb_le in E. unfold LLONG_MIN. lia.
    + apply Z.leb_gt in E. unfold LLONG_MIN, LLONG_MAX, ULONG_MODULUS in *. lia.
  - unfold LLONG_MIN, LLONG_MAX. lia.
Qed.

(** ** Lemmas on the user table *)

Lemma grows_refl tbl :
  Forall (fun e => 0 <= UserEntry.cpu_ms e) [] -> grows tbl tbl.
Proof.
  intros _. induction tbl as [|e tl IH].
  - constructor. constructor.
  - constructor; auto; lia.
Qed.

Lemma grows_same tbl : grows tbl tbl.
Proof. apply grows_refl. constructor. Qed.

Lemma grows_added_nonneg tbl tbl' :
  grows tbl tbl' -> Forall (fun e => 0 <= UserEntry.cpu_ms e) tbl ->
  Forall (fun e => 0 <= UserEntry.cpu_ms e) tbl'.
Proof.
  induction 1 as [added Ha | e e' tl tl' Hu Hn Hc Hg IH]; intros Hf; auto.
  inversion Hf; subst. constructor; [lia | auto].
Qed.

Lemma grows_trans t1 t2 t3 : grows t1 t2 -> grows t2 t3 -> grows t1 t3.
Proof.
  intros H12. revert t3.
  induction H12 as [added Ha | e e' tl tl' Hu Hn Hc Hg IH]; intros t3 H23.
  - constructor. eapply grows_added_nonneg; eauto.
  - inversion H23; subst. constructor; try congruence; [lia | auto].
Qed.

Lemma grows_append tbl e :
  0 <= UserEntry.cpu_ms e -> grows tbl (tbl ++ [e]).
Proof.
  intros He. induction tbl as [|x tl IH]; cbn.
  - constructor. constructor; auto.
  - constructor; auto; lia.
Qed.

Lemma grows_bump tbl (i : nat) e v :
  tbl !! i = Some e -> UserEntry.cpu_ms e <= v ->
  grows tbl (<[i := UserEntry.set_cpu_ms v e]> tbl).
Proof.
  revert i. induction tbl as [|x tl IH]; intros i Hi Hv; [discriminate|].
  destruct i as [|i]; cbn in *.
  - inversion Hi; subst. constructor; auto using grows_same.
  - constructor; auto; lia.
Qed.

Lemma grows_lookup tbl tbl' (i : nat) e :
  grows tbl tbl' -> tbl !! i = Some e ->
  exists e', tbl' !! i = Some e' /\ UserEntry.uid e' = UserEntry.uid e /\
             UserEntry.name e' = UserEntry.name e /\
             UserEntry.cpu_ms e <= UserEntry.cpu_ms e'.
Proof.
  intros Hg. revert i.
  induction Hg as [added Ha | x x' tl tl' Hu Hn Hc Hg IH]; intros i Hi.
  - discriminate.
  - destruct i as [|i]; cbn in *.
    + inversion Hi; subst. eauto.
    + eauto.
Qed.

Lemma cpu_of_table_nonneg uid tbl :
  Forall (fun e => 0 <= UserEntry.cpu_ms e) tbl -> 0 <= cpu_of_table uid tbl.
Proof.
  induction 1 as [|e tl He Hf IH]; cbn; [lia|].
  destruct (UserEntry.uid e =? uid); auto.
Qed.

Lemma grows_cpu_of uid tbl tbl' :
  grows tbl tbl' -> cpu_of_table uid tbl <= cpu_of_table uid tbl'.
Proof.
  induction 1 as [added Ha | e e' tl tl' Hu Hn Hc Hg IH]; cbn.
  - now apply cpu_of_table_nonneg.
  - rewrite Hu. destruct (UserEntry.uid e =? uid); auto.
Qed.

Lemma scan_users_found uid tbl k j v :
  scan_users uid tbl k = Some j ->
  exists (i : nat) e,
    j = (k + i)%nat /\ tbl !! i = Some e /\
    cpu_of_table uid tbl = UserEntry.cpu_ms e /\
    <[i := UserEntry.set_cpu_ms v e]> tbl = with_cpu uid v tbl.
Proof.
  revert k. induction tbl as [|x tl IH]; intros k H; cbn in H; [discriminate|].
  cbn [cpu_of_table with_cpu].
  destruct (UserEntry.uid x =? uid) eqn:E.
  - inversion H; subst. exists 0%nat, x. repeat split; auto; lia.
  - apply IH in H as (i & e & -> & Hi & Hc & Hw).
    exists (S i), e. rewrite <- Hw. repeat split; auto; lia.
Qed.

Lemma scan_users_none uid tbl k v :
  scan_users uid tbl k = None ->
  cpu_of_table uid tbl = 0 /\
  with_cpu uid v tbl = tbl ++ [UserEntry.mk uid v (user_name uid)].
Proof.
  revert k. induction tbl as [|x tl IH]; intros k H; cbn in *; [auto|].
  destruct (UserEntry.uid x =? uid); [discriminate|].
  apply IH in H as [H1 H2]. now rewrite H2.
Qed.

Lemma lookup_last_added (tbl : list UserEntry.t) x : (tbl ++ [x]) !! length tbl = Some x.
Proof. induction tbl; cbn; auto. Qed.

Lemma insert_last_added (tbl : list UserEntry.t) x y :
  <[length tbl := y]> (tbl ++ [x]) = tbl ++ [y].
Proof. induction tbl as [|e tl IH]; cbn; [auto | f_equal; exact IH]. Qed.

Lemma with_cpu_same uid v tbl : cpu_of_table uid (with_cpu uid v tbl) = v.
Proof.
  induction tbl as [|e tl IH]; cbn.
  - now rewrite Z.eqb_refl.
  - destruct (UserEntry.uid e =? uid) eqn:E; cbn; now rewrite E.
Qed.

Lemma with_cpu_other uid v u tbl :
  u <> uid -> cpu_of_table u (with_cpu uid v tbl) = cpu_of_table u tbl.
Proof.
  intros Hne. induction tbl as [|e tl IH]; cbn.
  - destruct (uid =? u) eqn:E; [apply Z.eqb_eq in E; congruence | reflexivity].
  - destruct (UserEntry.uid e =? uid) eqn:E; cbn.
    + apply Z.eqb_eq in E.
      destruct (UserEntry.uid e =? u) eqn:E'; [apply Z.eqb_eq in E'; congruence | reflexivity].
    + now rewrite IH.
Qed.

Lemma with_cpu_grows uid v tbl :
  cpu_of_table uid tbl <= v -> grows tbl (with_cpu uid v tbl).
Proof.
  induction tbl as [|e tl IH]; cbn; intros Hv.
  - constructor. constructor; [exact Hv | constructor].
  - destruct (UserEntry.uid e =? uid) eqn:E.
    + constructor; auto using grows_same.
    + constructor; auto; lia.
Qed.

(** [credit] in one equation: nothing when the owner cannot be tracked,
    otherwise the owner's time becomes the checked sum. *)
Lemma credit_eq uid ms st :
  credit uid ms st =
  if can_track uid st then
    let* v := ll_add (cpu_of uid st) ms in
    Ok (set_users (with_cpu uid v (user_table st)) st)
  else Ok st.
Proof.
  unfold credit, find_user, can_track, cpu_of.
  destruct (scan_users uid (user_table st) 0) as [j|] eqn:Hs.
  - destruct (scan_users_found _ _ _ _ 0 Hs) as (i & e & -> & Hi & Hc & _).
    unfold add_cpu_ms. cbn [Nat.add]. rewrite Hi, Hc.
    destruct (ll_add (UserEntry.cpu_ms e) ms) as [v|f] eqn:Ha; cbn [bind]; auto.
    destruct (scan_users_found _ _ _ _ v Hs) as (i' & e' & Hj & Hi' & _ & Hw).
    cbn in Hj. subst i'. rewrite Hi in Hi'. inversion Hi'; subst e'.
    now rewrite Hw.
  - destruct (scan_users_none _ _ _ 0 Hs) as [Hc _]. rewrite Hc.
    unfold user_count.
    replace (Z.of_nat (length (user_table st)) >=? MAX_USERS)
      with (negb (Z.of_nat (length (user_table st)) <? MAX_USERS))
      by (rewrite Z.geb_leb, Z.ltb_antisym, negb_involutive; reflexivity).
    destruct (Z.of_nat (length (user_table st)) <? MAX_USERS); cbn [negb]; auto.
    unfold add_cpu_ms. cbn [user_table set_users].
    rewrite lookup_last_added. cbn [UserEntry.cpu_ms].
    destruct (ll_add 0 ms) as [v|f] eqn:Ha; cbn [bind]; auto.
    destruct (scan_users_none _ _ _ v Hs) as [_ Hw].
    rewrite Hw. cbn [user_table set_users pid_slots hz].
    now rewrite insert_last_added.
Qed.

Lemma credit_not_oob uid ms st : credit uid ms st <> Ub OutOfBounds.
Proof.
  rewrite credit_eq. destruct (can_track uid st); [|discriminate].
  unfold ll_add.
  destruct (as_llong (cpu_of uid st + ms)) eqn:E; cbn [bind]; [discriminate|].
  intros H. inversion H; subst. exact (as_llong_not_oob _ E).
Qed.

Lemma credit_ok uid ms st st' :
  credit uid ms st = Ok st' ->
  pid_slots st' = pid_slots st /\ hz st' = hz st /\
  (forall u, u <> uid -> cpu_of u st' = cpu_of u st) /\
  (can_track uid st = true -> cpu_of uid st' = cpu_of uid st + ms) /\
  (can_track uid st = false -> st' = st) /\
  (0 <= ms -> grows (user_table st) (user_table st')).
Proof.
  rewrite credit_eq. destruct (can_track uid st).
  - intros H. res_cases H. apply as_llong_ok in E as [-> _].
    inversion H; subst st'. unfold cpu_of. cbn.
    repeat split; auto; try discriminate.
    + intros u Hu. now apply with_cpu_other.
    + intros _. apply with_cpu_same.
    + intros Hms. apply with_cpu_grows. lia.
  - intros H. inversion H; subst st'.
    repeat split; auto; try discriminate. intros _. apply grows_same.
Qed.

Lemma credit_defined uid ms st :
  LLONG_MIN <= cpu_of uid st + ms <= LLONG_MAX ->
  exists st', credit uid ms st = Ok st'.
Proof.
  intros Hr. rewrite credit_eq. destruct (can_track uid st); [|eauto].
  unfold ll_add. rewrite as_llong_in by exact Hr. cbn [bind]. eauto.
Qed.

(** ** Lemmas on the slots *)

Lemma slot_index_ok pid p : slot_index pid = Ok p -> p = pid /\ 0 <= pid < PID_MAX.
Proof.
  unfold slot_index.
  destruct (0 <=? pid) eqn:E1; destruct (pid <? PID_MAX) eqn:E2; cbn; try discriminate.
  intros H. inversion H. lia.
Qed.

Lemma slot_index_in pid : 0 <= pid < PID_MAX -> slot_index pid = Ok pid.
Proof.
  intros [H1 H2]. unfold slot_index.
  apply Z.leb_le in H1. apply Z.ltb_lt in H2. now rewrite H1, H2.
Qed.

Lemma slot_at_store pid s st : slot_at (store_slot pid s st) pid = s.
Proof. unfold slot_at, store_slot. cbn. now rewrite lookup_insert_eq. Qed.

Lemma slot_at_store_other pid q s st :
  q <> pid -> slot_at (store_slot pid s st) q = slot_at st q.
Proof. intros Hq. unfold slot_at, store_slot. cbn. now rewrite lookup_insert_ne. Qed.

Lemma lookup_store_other pid q s st :
  q <> pid -> pid_slots (store_slot pid s st) !! q = pid_slots st !! q.
Proof. intros Hq. unfold store_slot. cbn. now rewrite lookup_insert_ne. Qed.

(** Writing back what an active slot holds changes nothing. *)
Lemma store_slot_same pid st :
  PidSlot.active (slot_at st pid) <> 0 -> store_slot pid (slot_at st pid) st = st.
Proof.
  unfold slot_at, store_slot, set_slots. intros Ha.
  destruct (pid_slots st !! pid) as [s|] eqn:E; cbn in *; [|congruence].
  rewrite insert_id by exact E. now destruct st.
Qed.

Lemma slot_at_eq st st' q :
  pid_slots st' = pid_slots st -> slot_at st' q = slot_at st q.
Proof. unfold slot_at. now intros ->. Qed.

(** ** Lemmas on the classification step *)

Lemma first_sight_false slot uid :
  first_sight slot uid = false <-> PidSlot.active slot <> 0 /\ PidSlot.uid slot = uid.
Proof.
  unfold first_sight. rewrite orb_false_iff, negb_false_iff, Z.eqb_neq, Z.eqb_eq. tauto.
Qed.

Lemma first_sight_true slot uid :
  first_sight slot uid = true <-> PidSlot.active slot = 0 \/ PidSlot.uid slot <> uid.
Proof.
  unfold first_sight. rewrite orb_true_iff, negb_true_iff, Z.eqb_neq, Z.eqb_eq. tauto.
Qed.

(** What every defined execution of the classification step guarantees. *)
Lemma do_proc_ok is_baseline pid jiffies uid st st' :
  do_proc is_baseline pid jiffies uid st = Ok st' ->
  0 <= pid < PID_MAX /\ hz st' = hz st /\
  (forall q, q <> pid -> pid_slots st' !! q = pid_slots st !! q) /\
  (0 < hz st -> grows (user_table st) (user_table st')).
Proof.
  unfold do_proc. intros H. res_cases H.
  apply slot_index_ok in E as [-> Hr]. split; [exact Hr|].
  fold (first_sight (slot_at st pid) uid) in H.
  destruct (first_sight (slot_at st pid) uid).
  - destruct (is_baseline =? 0); cbn [negb] in H.
    + res_split H as t Et. res_split H as ms Ems. res_split H as st1 Est1.
      inversion H; subst st'; clear H.
      destruct (ms >? 0) eqn:Hms.
      * apply credit_ok in Est1 as (Hs & Hh & _ & _ & _ & Hg).
        cbn. rewrite Hh. repeat split; auto.
        -- intros q Hq. rewrite lookup_insert_ne by congruence. now rewrite Hs.
        -- intros _. apply Hg. lia.
      * inversion Est1; subst st1. cbn. repeat split; auto using grows_same.
        intros q Hq. now rewrite lookup_insert_ne by congruence.
    + inversion H; subst st'. cbn. repeat split; auto using grows_same.
      intros q Hq. now rewrite lookup_insert_ne by congruence.
  - destruct (is_baseline =? 0).
    + res_split H as d Ed.
      destruct ((if d <? 0 then 0 else d) >? 0) eqn:Hd.
      * res_split H as t Et. res_split H as ms Ems.
        apply as_llong_ok in Et as [-> _]. apply ll_div_ok in Ems as [Hz ->].
        apply credit_ok in H as (Hs & Hh & _ & _ & _ & Hg). cbn in *.
        repeat split; auto.
        -- intros q Hq. rewrite Hs. now rewrite lookup_insert_ne by congruence.
        -- intros Hhz. apply Hg. apply Z.quot_pos; [|lia].
           destruct (d <? 0); lia.
      * inversion H; subst st'. cbn. repeat split; auto using grows_same.
        intros q Hq. now rewrite lookup_insert_ne by congruence.
    + inversion H; subst st'. repeat split; auto using grows_same.
Qed.

Lemma do_proc_not_oob is_baseline pid jiffies uid st :
  0 <= pid < PID_MAX -> do_proc is_baseline pid jiffies uid st <> Ub OutOfBounds.
Proof.
  intros Hr. unfold do_proc. rewrite slot_index_in by exact Hr. cbn [bind].
  destruct (_ || _).
  - destruct (negb _); [discriminate|].
    unfold ll_mul. destruct (as_llong (jiffies * 1000)) eqn:E1; cbn [bind];
      [|intros H; inversion H; subst; exact (as_llong_not_oob _ E1)].
    destruct (ll_div a (hz st)) eqn:E2; cbn [bind];
      [|intros H; inversion H; subst; exact (ll_div_not_oob _ _ E2)].
    destruct (a0 >? 0).
    + destruct (credit uid a0 st) eqn:E3; cbn [bind]; [discriminate|].
      intros H; inversion H; subst. exact (credit_not_oob _ _ _ E3).
    + discriminate.
  - destruct (is_baseline =? 0); [|discriminate].
    unfold ll_sub. destruct (as_llong _) eqn:E1; cbn [bind];
      [|intros H; inversion H; subst; exact (as_llong_not_oob _ E1)].
    destruct (_ >? 0); [|discriminate].
    unfold ll_mul. destruct (as_llong (_ * 1000)) eqn:E2; cbn [bind];
      [|intros H; inversion H; subst; exact (as_llong_not_oob _ E2)].
    destruct (ll_div _ _) eqn:E3; cbn [bind];
      [|intros H; inversion H; subst; exact (ll_div_not_oob _ _ E3)].
    apply credit_not_oob.
Qed.

Lemma do_proc_baseline_first is_baseline pid jiffies uid st :
  0 <= pid < PID_MAX -> is_baseline <> 0 ->
  first_sight (slot_at st pid) uid = true ->
  do_proc is_baseline pid jiffies uid st = Ok (store_slot pid (PidSlot.mk 1 uid jiffies) st).
Proof.
  intros Hr Hb Hf. unfold do_proc. rewrite slot_index_in by exact Hr. cbn [bind].
  fold (first_sight (slot_at st pid) uid). rewrite Hf.
  apply Z.eqb_neq in Hb. now rewrite Hb.
Qed.

Lemma do_proc_baseline_known is_baseline pid jiffies uid st :
  0 <= pid < PID_MAX -> is_baseline <> 0 ->
  first_sight (slot_at st pid) uid = false ->
  do_proc is_baseline pid jiffies uid st = Ok st.
Proof.
  intros Hr Hb Hf. unfold do_proc. rewrite slot_index_in by exact Hr. cbn [bind].
  fold (first_sight (slot_at st pid) uid). rewrite Hf.
  apply Z.eqb_neq in Hb. now rewrite Hb.
Qed.

(** A process seen for the first time, or under a new owner, on a regular
    sample. *)
Lemma do_proc_tick_first pid jiffies uid st st' :
  do_proc 0 pid jiffies uid st = Ok st' ->
  first_sight (slot_at st pid) uid = true ->
  0 < hz st -> 0 <= jiffies ->
  slot_at st' pid = PidSlot.mk 1 uid jiffies /\
  (forall u, u <> uid -> cpu_of u st' = cpu_of u st) /\
  (can_track uid st = true -> cpu_of uid st' = cpu_of uid st + jiffies * 1000 / hz st) /\
  (can_track uid st = false -> user_table st' = user_table st).
Proof.
  unfold do_proc. intros H Hf Hhz Hj. res_split H as p Ep.
  apply slot_index_ok in Ep as [-> Hr].
  fold (first_sight (slot_at st pid) uid) in H. rewrite Hf in H.
  cbn [Z.eqb negb] in H.
  res_split H as t Et. res_split H as ms Ems. res_split H as st1 Est1.
  inversion H; subst st'; clear H.
  apply as_llong_ok in Et as [-> _]. apply ll_div_ok in Ems as [_ ->].
  rewrite quot_is_div in * by lia.
  split; [apply slot_at_store|].
  unfold cpu_of in *. cbn [store_slot set_slots user_table].
  destruct (jiffies * 1000 / hz st >? 0) eqn:Hms.
  - apply credit_ok in Est1 as (_ & _ & Ho & Hc & Hn & _).
    repeat split; auto. intros Hn'. now rewrite (Hn Hn').
  - inversion Est1; subst st1.
    assert (0 <= jiffies * 1000 / hz st) by (apply Z.div_pos; lia).
    repeat split; auto. intros _. lia.
Qed.

Lemma do_proc_tick_first_defined pid jiffies uid st :
  0 <= pid < PID_MAX ->
  first_sight (slot_at st pid) uid = true ->
  0 < hz st -> 0 <= jiffies -> jiffies * 1000 <= LLONG_MAX ->
  LLONG_MIN <= cpu_of uid st + jiffies * 1000 / hz st <= LLONG_MAX ->
  exists st', do_proc 0 pid jiffies uid st = Ok st'.
Proof.
  intros Hr Hf Hhz Hj Hm Hc. unfold do_proc.
  rewrite slot_index_in by exact Hr. cbn [bind].
  fold (first_sight (slot_at st pid) uid). rewrite Hf. cbn [Z.eqb negb].
  unfold ll_mul. rewrite as_llong_in by (unfold LLONG_MIN; lia). cbn [bind].
  rewrite ms_in_range by lia. cbn [bind].
  destruct (_ >? 0); cbn [bind]; [|eauto].
  destruct (credit_defined uid _ st Hc) as [st1 ->]. cbn [bind]. eauto.
Qed.

(** A process already known under the same owner, on a regular sample. *)
Lemma do_proc_tick_known pid jiffies uid st st' :
  do_proc 0 pid jiffies uid st = Ok st' ->
  first_sight (slot_at st pid) uid = false ->
  0 < hz st ->
  slot_at st' pid = PidSlot.mk (PidSlot.active (slot_at st pid)) uid jiffies /\
  (forall u, u <> uid -> cpu_of u st' = cpu_of u st) /\
  (can_track uid st = true ->
   cpu_of uid st' =
   cpu_of uid st
   + Z.max 0 (jiffies - PidSlot.prev_jiffies (slot_at st pid)) * 1000 / hz st) /\
  (jiffies <= PidSlot.prev_jiffies (slot_at st pid) -> user_table st' = user_table st).
Proof.
  unfold do_proc. intros H Hf Hhz.
  set (prev := PidSlot.prev_jiffies (slot_at st pid)) in *.
  res_split H as p Ep.
  apply slot_index_ok in Ep as [-> Hr].
  fold (first_sight (slot_at st pid) uid) in H. rewrite Hf in H.
  cbn [Z.eqb] in H. apply first_sight_false in Hf as [Ha Hu].
  res_split H as d Ed. apply as_llong_ok in Ed as [-> _]. fold prev in H.
  rewrite Hu in H.
  replace (if jiffies - prev <? 0 then 0 else jiffies - prev)
    with (Z.max 0 (jiffies - prev)) in H
    by (destruct (jiffies - prev <? 0) eqn:E;
        [apply Z.ltb_lt in E | apply Z.ltb_ge in E]; lia).
  destruct (Z.max 0 (jiffies - prev) >? 0) eqn:Hd.
  - res_split H as t Et. res_split H as ms Ems.
    apply as_llong_ok in Et as [-> _]. apply ll_div_ok in Ems as [_ ->].
    cbn [store_slot set_slots hz] in H. rewrite quot_is_div in H by lia.
    apply credit_ok in H as (Hs & _ & Ho & Hc & _ & _).
    split; [|split; [|split]].
    + rewrite (slot_at_eq _ _ _ Hs). apply slot_at_store.
    + exact Ho.
    + exact Hc.
    + intros Hle. lia.
  - inversion H; subst st'; clear H.
    assert (Z.max 0 (jiffies - prev) = 0) as -> by lia.
    split; [apply slot_at_store|]. unfold cpu_of. cbn.
    repeat split; auto. intros _. rewrite Z.div_0_l by lia. lia.
Qed.

Lemma do_proc_tick_known_defined pid jiffies uid st :
  0 <= pid < PID_MAX ->
  first_sight (slot_at st pid) uid = false ->
  0 < hz st ->
  LLONG_MIN <= jiffies - PidSlot.prev_jiffies (slot_at st pid) <= LLONG_MAX ->
  Z.max 0 (jiffies - PidSlot.prev_jiffies (slot_at st pid)) * 1000 <= LLONG_MAX ->
  LLONG_MIN <=
    cpu_of uid st
    + Z.max 0 (jiffies - PidSlot.prev_jiffies (slot_at st pid)) * 1000 / hz st
    <= LLONG_MAX ->
  exists st', do_proc 0 pid jiffies uid st = Ok st'.
Proof.
  intros Hr Hf Hhz. set (prev := PidSlot.prev_jiffies (slot_at st pid)).
  intros Hd Hm Hc. unfold do_proc.
  rewrite slot_index_in by exact Hr. cbn [bind].
  fold (first_sight (slot_at st pid) uid). rewrite Hf. cbn [Z.eqb].
  unfold ll_sub. fold prev. rewrite as_llong_in by exact Hd. cbn [bind].
  replace (if jiffies - prev <? 0 then 0 else jiffies - prev)
    with (Z.max 0 (jiffies - prev))
    by (destruct (jiffies - prev <? 0) eqn:E;
        [apply Z.ltb_lt in E | apply Z.ltb_ge in E]; lia).
  destruct (_ >? 0); [|eauto].
  unfold ll_mul. rewrite as_llong_in by (unfold LLONG_MIN; lia). cbn [bind].
  cbn [store_slot set_slots hz]. rewrite ms_in_range by lia. cbn [bind].
  apply credit_defined. exact Hc.
Qed.

(** A known process whose counter did not advance: only the slot is
    written, nothing is converted or credited. *)
Lemma do_proc_tick_no_gain pid jiffies uid st :
  0 <= pid < PID_MAX ->
  first_sight (slot_at st pid) uid = false ->
  jiffies <= PidSlot.prev_jiffies (slot_at st pid) ->
  LLONG_MIN <= jiffies - PidSlot.prev_jiffies (slot_at st pid) ->
  do_proc 0 pid jiffies uid st =
  Ok (store_slot pid (PidSlot.mk (PidSlot.active (slot_at st pid)) uid jiffies) st).
Proof.
  intros Hr Hf Hle Hmin. unfold do_proc.
  rewrite slot_index_in by exact Hr. cbn [bind].
  fold (first_sight (slot_at st pid) uid). rewrite Hf. cbn [Z.eqb].
  apply first_sight_false in Hf as [_ Hu].
  unfold ll_sub. rewrite as_llong_in by (unfold LLONG_MAX in *; lia). cbn [bind].
  rewrite Hu.
  destruct (jiffies - PidSlot.prev_jiffies (slot_at st pid) <? 0) eqn:E; [reflexivity|].
  apply Z.ltb_ge in E.
  replace (jiffies - PidSlot.prev_jiffies (slot_at st pid)) with 0 by lia.
  reflexivity.
Qed.

(** ** Lemmas on the conversion to milliseconds *)

Lemma div_superadditive a b h : 0 < h -> a / h + b / h <= (a + b) / h.
Proof.
  intros Hh. apply Z.div_le_lower_bound; [exact Hh|].
  pose proof (Z.mul_div_le a h Hh). pose proof (Z.mul_div_le b h Hh). lia.
Qed.

Lemma last_cons_default (c prev : Z) cs : List.last (c :: cs) prev = List.last cs c.
Proof.
  revert c prev. induction cs as [|x cs IH]; intros c prev; [reflexivity|].
  change (List.last (c :: x :: cs) prev) with (List.last (x :: cs) prev).
  rewrite IH. symmetry. apply IH.
Qed.

Lemma per_tick_ms_le h prev cs :
  0 < h -> per_tick_ms h prev cs <= (List.last cs prev - prev) * 1000 / h.
Proof.
  intros Hh. revert prev. induction cs as [|c cs IH]; intros prev.
  - cbn. rewrite Z.sub_diag. cbn. rewrite Z.div_0_l by lia. lia.
  - cbn [per_tick_ms]. rewrite last_cons_default.
    specialize (IH c).
    pose proof (div_superadditive ((c - prev) * 1000) ((List.last cs c - c) * 1000) h Hh) as Hs.
    replace ((c - prev) * 1000 + (List.last cs c - c) * 1000)
      with ((List.last cs c - prev) * 1000) in Hs by lia.
    lia.
Qed.

Lemma per_tick_ms_exact h prev cs :
  0 < h -> (h | 1000) -> per_tick_ms h prev cs = (List.last cs prev - prev) * 1000 / h.
Proof.
  intros Hh [k Hk]. revert prev. induction cs as [|c cs IH]; intros prev.
  - cbn. rewrite Z.sub_diag. cbn. now rewrite Z.div_0_l by lia.
  - cbn [per_tick_ms]. rewrite last_cons_default, IH, Hk.
    rewrite !Z.mul_assoc, !Z.div_mul by lia. lia.
Qed.

(** ** Lemmas on one directory entry and on a whole pass *)

Lemma scan_name_valid s p valid pid :
  scan_name s p = Ok (valid, pid) -> valid = if all_digits s then 1 else 0.
Proof.
  unfold all_digits. revert p.
  induction s as [|c s IH]; intros p H; cbn in *.
  - now inversion H.
  - destruct (isdigit c); cbn.
    + res_split H as t Et. res_split H as p' Ep'. eauto.
    + now inversion H.
Qed.

Lemma scan_name_not_oob s p : scan_name s p <> Ub OutOfBounds.
Proof.
  revert p. induction s as [|c s IH]; intros p; cbn; [discriminate|].
  destruct (isdigit c); [|discriminate].
  unfold int_mul, int_add, as_int.
  destruct (in_int (p * 10)); cbn [bind]; [|discriminate].
  destruct (in_int _); cbn [bind]; [apply IH | discriminate].
Qed.

Lemma do_entry_observes is_baseline fs d_name pid jiffies uid st :
  observes fs d_name pid jiffies uid ->
  do_entry is_baseline fs d_name st = do_proc is_baseline pid jiffies uid st.
Proof.
  intros (Hs & Hp & Hj & Hj0 & Hu & Hn). unfold do_entry.
  rewrite Hs. cbn [bind Z.eqb orb].
  replace (pid <=? 0) with false by (symmetry; apply Z.leb_gt; lia).
  replace (pid >=? PID_MAX) with false by (rewrite Z.geb_leb; symmetry; apply Z.leb_gt; lia).
  rewrite Hj, Hu. cbn [orb].
  replace (jiffies <? 0) with false by (symmetry; apply Z.ltb_ge; lia).
  apply Z.eqb_neq in Hn. now rewrite Hn.
Qed.

(** An entry either leaves the state alone or reaches the classification
    step with a pid inside the table. *)
Lemma do_entry_cases is_baseline fs d_name st :
  do_entry is_baseline fs d_name st = Ok st \/
  (exists f, scan_name d_name 0 = Ub f /\
             do_entry is_baseline fs d_name st = Ub f /\ f <> OutOfBounds) \/
  exists pid,
    scan_name d_name 0 = Ok (1, pid) /\ 0 < pid < PID_MAX /\
    0 <= read_proc_stat fs pid /\ read_proc_uid fs pid <> UID_NONE /\
    do_entry is_baseline fs d_name st =
    do_proc is_baseline pid (read_proc_stat fs pid) (read_proc_uid fs pid) st.
Proof.
  unfold do_entry.
  destruct (scan_name d_name 0) as [[valid pid]|f] eqn:Es; cbn [bind].
  - destruct (valid =? 0) eqn:Ev; cbn [orb]; [auto|].
    destruct (pid <=? 0) eqn:E0; cbn [orb]; [auto|].
    destruct (pid >=? PID_MAX) eqn:E1; [auto|].
    destruct (read_proc_stat fs pid <? 0) eqn:Ej; [auto|].
    destruct (read_proc_uid fs pid =? UID_NONE) eqn:Eu; [auto|].
    right. right. exists pid.
    pose proof (scan_name_valid _ _ _ _ Es) as Hv.
    apply Z.eqb_neq in Ev, Eu. apply Z.leb_gt in E0. apply Z.ltb_ge in Ej.
    rewrite Z.geb_leb in E1. apply Z.leb_gt in E1.
    assert (valid = 1) as -> by (destruct (all_digits d_name); congruence).
    repeat split; auto; lia.
  - right. left. exists f. repeat split; auto.
    intros ->. exact (scan_name_not_oob _ _ Es).
Qed.

Lemma do_entry_ok is_baseline fs d_name st st' :
  do_entry is_baseline fs d_name st = Ok st' ->
  hz st' = hz st /\
  (forall q, ~ 0 < q < PID_MAX -> pid_slots st' !! q = pid_slots st !! q) /\
  (0 < hz st -> grows (user_table st) (user_table st')).
Proof.
  intros H.
  destruct (do_entry_cases is_baseline fs d_name st)
    as [Hsame | [(f & _ & Hf & _) | (pid & _ & Hp & _ & _ & Hd)]].
  - rewrite Hsame in H. inversion H; subst st'.
    repeat split; auto using grows_same.
  - congruence.
  - rewrite Hd in H. apply do_proc_ok in H as (_ & Hh & Hs & Hg).
    repeat split; auto. intros q Hq. apply Hs. intros ->. auto.
Qed.

Lemma do_entry_not_oob is_baseline fs d_name st :
  do_entry is_baseline fs d_name st <> Ub OutOfBounds.
Proof.
  destruct (do_entry_cases is_baseline fs d_name st)
    as [Hsame | [(f & _ & Hf & Hne) | (pid & _ & Hp & _ & _ & Hd)]].
  - congruence.
  - congruence.
  - rewrite Hd. apply do_proc_not_oob. lia.
Qed.

Lemma readdir_loop_ok is_baseline fs names st st' :
  readdir_loop is_baseline fs names st = Ok st' ->
  hz st' = hz st /\
  (forall q, ~ 0 < q < PID_MAX -> pid_slots st' !! q = pid_slots st !! q) /\
  (0 < hz st -> grows (user_table st) (user_table st')).
Proof.
  revert st. induction names as [|d rest IH]; intros st H; cbn in H.
  - inversion H; subst st'. repeat split; auto using grows_same.
  - res_split H as st1 E1.
    apply do_entry_ok in E1 as (Hh1 & Hs1 & Hg1).
    apply IH in H as (Hh & Hs & Hg).
    split; [congruence|]. split.
    + intros q Hq. rewrite Hs, Hs1; auto.
    + intros Hz. eapply grows_trans; [apply Hg1; exact Hz | apply Hg; lia].
Qed.

Lemma readdir_loop_not_oob is_baseline fs names st :
  readdir_loop is_baseline fs names st <> Ub OutOfBounds.
Proof.
  revert st. induction names as [|d rest IH]; intros st; cbn; [discriminate|].
  destruct (do_entry is_baseline fs d st) as [st1|f] eqn:E; cbn [bind]; [apply IH|].
  intros H. inversion H; subst. exact (do_entry_not_oob _ _ _ _ E).
Qed.

Lemma do_sample_ok is_baseline fs st st' :
  do_sample is_baseline fs st = Ok st' ->
  hz st' = hz st /\
  (forall q, ~ 0 < q < PID_MAX -> pid_slots st' !! q = pid_slots st !! q) /\
  (0 < hz st -> grows (user_table st) (user_table st')).
Proof.
  unfold do_sample. destruct (proc_dir fs) as [names|].
  - apply readdir_loop_ok.
  - intros H. inversion H; subst st'. repeat split; auto using grows_same.
Qed.

(** ** Lemmas on the sightings of one process *)

Lemma sees_do_proc is_baseline pid uid s :
  sees is_baseline pid uid s ->
  0 < pid < PID_MAX /\ 0 <= counter_of pid s /\
  do_proc is_baseline pid (counter_of pid s) uid (before s) = Ok (after s).
Proof.
  intros [Ho Hd]. rewrite (do_entry_observes _ _ _ _ _ _ _ Ho) in Hd.
  destruct Ho as (_ & Hp & _ & Hj & _). auto.
Qed.

Lemma followed_attributed pid uid ticks :
  forall last,
    first_sight (slot_at last pid) uid = false ->
    0 < hz last ->
    followed pid uid last ticks ->
    nondecreasing (PidSlot.prev_jiffies (slot_at last pid)) (map (counter_of pid) ticks) ->
    Forall (fun s => can_track uid (before s) = true) ticks ->
    attributed uid ticks =
    per_tick_ms (hz last) (PidSlot.prev_jiffies (slot_at last pid)) (map (counter_of pid) ticks).
Proof.
  induction ticks as [|s rest IH]; intros last Hf Hhz Hfol Hnd Htr; [reflexivity|].
  destruct Hfol as (Hslot & Hh & Hsees & Hrest).
  destruct Hnd as [Hle Hnd]. inversion Htr as [|? ? Hc Htr']; subst.
  apply sees_do_proc in Hsees as (Hp & Hj & Hd).
  rewrite <- Hslot in Hf, Hle |- *. rewrite <- Hh in Hhz |- *.
  pose proof (do_proc_ok _ _ _ _ _ _ Hd) as (_ & Hh' & _ & _).
  destruct (do_proc_tick_known _ _ _ _ _ Hd Hf Hhz) as (Hs' & _ & Hgain & _).
  specialize (Hgain Hc). rewrite Z.max_r in Hgain by lia.
  apply first_sight_false in Hf as [Ha Hu].
  unfold attributed in *. cbn [map fold_right per_tick_ms].
  rewrite (IH (after s)).
  - rewrite Hs', Hh'. cbn [PidSlot.prev_jiffies]. unfold gained. lia.
  - rewrite Hs'. apply first_sight_false. cbn. auto.
  - lia.
  - exact Hrest.
  - rewrite Hs'. exact Hnd.
  - exact Htr'.
Qed.

Lemma followed_unchanged pid uid ticks :
  forall last,
    first_sight (slot_at last pid) uid = false ->
    followed pid uid last ticks ->
    Forall (fun s => counter_of pid s = PidSlot.prev_jiffies (slot_at last pid)) ticks ->
    Forall (fun s => after s = before s) ticks.
Proof.
  induction ticks as [|s rest IH]; intros last Hf Hfol Hsame; [constructor|].
  destruct Hfol as (Hslot & Hh & Hsees & Hrest).
  inversion Hsame as [|? ? Hc Hsame']; subst.
  apply sees_do_proc in Hsees as (Hp & Hj & Hd).
  rewrite <- Hslot in Hf, Hc, Hsame'.
  rewrite do_proc_tick_no_gain in Hd; auto; try lia;
    [|rewrite Hc; unfold LLONG_MIN; lia].
  pose proof Hf as Hf'. apply first_sight_false in Hf' as [Ha Hu].
  assert (PidSlot.mk (PidSlot.active (slot_at (before s) pid)) uid (counter_of pid s)
          = slot_at (before s) pid) as Hrec
    by (rewrite Hc, <- Hu; now destruct (slot_at (before s) pid)).
  rewrite Hrec, store_slot_same in Hd by exact Ha.
  inversion Hd as [Heq]. constructor; [auto|].
  rewrite <- Heq in Hrest. apply (IH (before s)); auto.
Qed.

Lemma attributed_unchanged uid l :
  Forall (fun s => after s = before s) l -> attributed uid l = 0.
Proof.
  unfold attributed. induction 1 as [|s l Hs Hl IH]; [reflexivity|].
  cbn [map fold_right]. unfold gained at 1. rewrite Hs, IH. lia.
Qed.

(** What the baseline pass does with a process it records. *)
Lemma watched_baseline pid uid base ticks :
  watched pid uid base ticks ->
  after base = store_slot pid (PidSlot.mk 1 uid (counter_of pid base)) (before base) /\
  followed pid uid (after base) ticks.
Proof.
  intros (Hf & Hsees & Hfol). split; [|exact Hfol].
  apply sees_do_proc in Hsees as (Hp & _ & Hd).
  rewrite do_proc_baseline_first in Hd; auto; try lia.
  now inversion Hd.
Qed.

(** ** Lemmas that place a sighting inside a pass *)

Lemma do_proc_slot is_baseline pid jiffies uid st st' :
  do_proc is_baseline pid jiffies uid st = Ok st' ->
  slot_at st' pid = slot_at st pid \/ PidSlot.prev_jiffies (slot_at st' pid) = jiffies.
Proof.
  unfold do_proc. intros H. res_split H as p Ep.
  apply slot_index_ok in Ep as [-> Hr].
  destruct (_ || _).
  - right. destruct (negb _).
    + inversion H; subst st'. now rewrite slot_at_store.
    + res_split H as t Et. res_split H as ms Ems. res_split H as st1 Est1.
      inversion H; subst st'. now rewrite slot_at_store.
  - destruct (is_baseline =? 0); [right | left; now inversion H].
    res_split H as d Ed. destruct (_ >? 0).
    + res_split H as t Et. res_split H as ms Ems.
      apply credit_ok in H as (Hs & _). rewrite (slot_at_eq _ _ _ Hs).
      now rewrite slot_at_store.
    + inversion H; subst st'. now rewrite slot_at_store.
Qed.

(** An entry with another name than the decimal form of [pid] leaves the
    slot of [pid] alone. *)
Lemma do_entry_other_slot is_baseline fs d_name pid st st' :
  do_entry is_baseline fs d_name st = Ok st' ->
  scan_name d_name 0 <> Ok (1, pid) ->
  slot_at st' pid = slot_at st pid.
Proof.
  intros H Hn.
  destruct (do_entry_cases is_baseline fs d_name st)
    as [Hsame | [(f & _ & Hf & _) | (q & Hs & _ & _ & _ & Hd)]].
  - rewrite Hsame in H. now inversion H.
  - congruence.
  - rewrite Hd in H. apply do_proc_ok in H as (_ & _ & Hframe & _).
    unfold slot_at. rewrite Hframe; [reflexivity|]. intros ->. auto.
Qed.

Lemma readdir_loop_other_slot is_baseline fs names pid : forall st st',
  Forall (fun d => scan_name d 0 <> Ok (1, pid)) names ->
  readdir_loop is_baseline fs names st = Ok st' ->
  slot_at st' pid = slot_at st pid.
Proof.
  induction names as [|d rest IH]; intros st st' Hall H; cbn in H.
  - now inversion H.
  - inversion Hall as [|? ? Hd Hrest]; subst. res_split H as st1 E1.
    rewrite (IH st1 st' Hrest H). eapply do_entry_other_slot; eauto.
Qed.

Lemma readdir_loop_app is_baseline fs l1 l2 st :
  readdir_loop is_baseline fs (l1 ++ l2) st =
  bind (readdir_loop is_baseline fs l1 st) (readdir_loop is_baseline fs l2).
Proof.
  revert st. induction l1 as [|d l1 IH]; intros st; cbn; [reflexivity|].
  destruct (do_entry is_baseline fs d st); cbn [bind]; auto.
Qed.

(** A pass whose directory lists the process once contains a sighting of
    it, and the slot of the process is the same at the start of the pass and
    before the sighting, and the same after the sighting and at the end of
    the pass. *)
Lemma pass_sighting is_baseline fs l1 d_name l2 pid uid st st' :
  proc_dir fs = Some (l1 ++ d_name :: l2) ->
  observes fs d_name pid (read_proc_stat fs pid) uid ->
  Forall (fun d => scan_name d 0 <> Ok (1, pid)) (l1 ++ l2) ->
  do_sample is_baseline fs st = Ok st' ->
  exists s,
    view s = fs /\ entry s = d_name /\ sees is_baseline pid uid s /\
    slot_at (before s) pid = slot_at st pid /\ hz (before s) = hz st /\
    slot_at st' pid = slot_at (after s) pid.
Proof.
  intros Hdir Ho Hall H. unfold do_sample in H. rewrite Hdir in H.
  rewrite readdir_loop_app in H. res_split H as s1 E1. cbn in H.
  res_split H as s2 E2.
  apply List.Forall_app in Hall as [H1 H2].
  exists (mkSighting fs d_name s1 s2). unfold sees, counter_of. cbn.
  split; [reflexivity|]. split; [reflexivity|].
  split; [split; [exact Ho | exact E2]|].
  split; [exact (readdir_loop_other_slot _ _ _ _ _ _ H1 E1)|].
  split; [now apply readdir_loop_ok in E1 as (? & _)|].
  exact (readdir_loop_other_slot _ _ _ _ _ _ H2 H).
Qed.

Lemma initial_slots_in_range h : slots_in_range (set_hz h initial_state).
Proof. intros pid. unfold slot_at. cbn. rewrite lookup_empty. cbn. unfold LLONG_MAX. lia. Qed.

Lemma do_entry_slots_in_range is_baseline fs d_name st st' :
  do_entry is_baseline fs d_name st = Ok st' ->
  slots_in_range st -> slots_in_range st'.
Proof.
  intros H Hr q.
  destruct (do_entry_cases is_baseline fs d_name st)
    as [Hsame | [(f & _ & Hf & _) | (pid & Hs & Hp & Hj & _ & Hd)]].
  - rewrite Hsame in H. inversion H; subst st'. apply Hr.
  - congruence.
  - rewrite Hd in H. destruct (Z.eq_dec q pid) as [->|Hq].
    + destruct (do_proc_slot _ _ _ _ _ _ H) as [-> | ->]; [apply Hr|].
      pose proof (read_proc_stat_range fs pid). lia.
    + apply do_proc_ok in H as (_ & _ & Hframe & _).
      unfold slot_at. rewrite Hframe by exact Hq. apply Hr.
Qed.

Lemma do_sample_slots_in_range is_baseline fs st st' :
  do_sample is_baseline fs st = Ok st' ->
  slots_in_range st -> slots_in_range st'.
Proof.
  unfold do_sample. destruct (proc_dir fs) as [names|];
    [|intros H Hr; inversion H; subst; exact Hr].
  revert st. induction names as [|d rest IH]; intros st H Hr; cbn in H.
  - inversion H; subst. exact Hr.
  - res_split H as st1 E1. eapply IH; [exact H|].
    eapply do_entry_slots_in_range; eauto.
Qed.

(** An iteration has defined behaviour when the name scans without
    overflow, the counter it reads can be multiplied by 1000 and the
    accumulators have room for the result. *)
Lemma do_entry_defined is_baseline fs d_name st :
  0 < hz st ->
  slots_in_range st ->
  (exists r, scan_name d_name 0 = Ok r) ->
  (forall pid uid,
     0 <= read_proc_stat fs pid ->
     read_proc_stat fs pid * 1000 <= LLONG_MAX /\
     0 <= cpu_of uid st /\
     cpu_of uid st + read_proc_stat fs pid * 1000 / hz st <= LLONG_MAX) ->
  exists st', do_entry is_baseline fs d_name st = Ok st'.
Proof.
  intros Hhz Hr [r Hs] Hroom.
  destruct (do_entry_cases is_baseline fs d_name st)
    as [Hsame | [(f & Hf & _) | (pid & _ & Hp & Hj & _ & Hd)]].
  - eauto.
  - congruence.
  - rewrite Hd. set (j := read_proc_stat fs pid) in *.
    set (uid := read_proc_uid fs pid).
    destruct (Hroom pid uid Hj) as (Hm & Hc0 & Hc1). fold j in Hm, Hc1.
    destruct (Z.eq_dec is_baseline 0) as [-> | Hb].
    + destruct (first_sight (slot_at st pid) uid) eqn:Hf.
      * apply do_proc_tick_first_defined; auto; try lia.
        assert (0 <= j * 1000 / hz st) by (apply Z.div_pos; lia).
        unfold LLONG_MIN. lia.
      * pose proof (Hr pid) as Hprev.
        set (prev := PidSlot.prev_jiffies (slot_at st pid)) in *.
        assert (0 <= Z.max 0 (j - prev) <= j) by lia.
        assert (0 <= Z.max 0 (j - prev) * 1000 / hz st <= j * 1000 / hz st).
        { split; [apply Z.div_pos; lia|]. apply Z.div_le_mono; lia. }
        apply do_proc_tick_known_defined; auto; fold prev;
          unfold LLONG_MIN, LLONG_MAX in *; lia.
    + destruct (first_sight (slot_at st pid) uid) eqn:Hf.
      * rewrite do_proc_baseline_first; eauto. lia.
      * rewrite do_proc_baseline_known; eauto. lia.
Qed.

(** ** Lemmas on the sampling loop *)

Lemma sample_loop_ok n proc : forall k st k' st',
  sample_loop n proc k st = Ok (k', st') ->
  k' = (k + n)%nat /\ hz st' = hz st /\
  (0 < hz st -> grows (user_table st) (user_table st')).
Proof.
  induction n as [|n IH]; intros k st k' st' H; cbn in H.
  - inversion H; subst. repeat split; auto using grows_same; lia.
  - res_split H as st1 E1. apply do_sample_ok in E1 as (Hh1 & _ & Hg1).
    apply IH in H as (-> & Hh & Hg).
    split; [lia|]. split; [congruence|].
    intros Hz. eapply grows_trans; [apply Hg1; exact Hz | apply Hg; lia].
Qed.

Lemma clock_ticks_pos clk_tck : 0 < clock_ticks clk_tck.
Proof.
  unfold clock_ticks. destruct (clk_tck <=? 0) eqn:E; [lia|].
  apply Z.leb_gt in E. exact E.
Qed.

(** ** Lemmas on the report *)

Lemma cmp_cpu_desc_le a b :
  cmp_cpu_desc a b <= 0 <-> UserEntry.cpu_ms b <= UserEntry.cpu_ms a.
Proof.
  unfold cmp_cpu_desc.
  destruct (UserEntry.cpu_ms b >? UserEntry.cpu_ms a) eqn:E1;
    destruct (UserEntry.cpu_ms b <? UserEntry.cpu_ms a) eqn:E2; lia.
Qed.

Lemma filter_perm (f : UserEntry.t -> bool) l l' :
  Permutation l l' -> Permutation (List.filter f l) (List.filter f l').
Proof.
  induction 1 as [|x l l' Hp IH|x y l|l1 l2 l3 H12 IH12 H23 IH23]; cbn.
  - constructor.
  - destruct (f x); [now constructor | exact IH].
  - destruct (f x), (f y); try reflexivity. constructor.
  - now transitivity (List.filter f l2).
Qed.

Lemma print_rows_content tbl rank :
  map (fun r => (row_user r, row_ms r)) (print_rows tbl rank) =
  map (fun u => (UserEntry.name u, UserEntry.cpu_ms u))
      (List.filter (fun u => 0 <? UserEntry.cpu_ms u) tbl).
Proof.
  revert rank. induction tbl as [|u tl IH]; intros rank; cbn; [reflexivity|].
  destruct (UserEntry.cpu_ms u <=? 0) eqn:E.
  - apply Z.leb_le in E.
    replace (0 <? UserEntry.cpu_ms u) with false by (symmetry; apply Z.ltb_ge; lia).
    apply IH.
  - apply Z.leb_gt in E.
    replace (0 <? UserEntry.cpu_ms u) with true by (symmetry; apply Z.ltb_lt; lia).
    cbn. now rewrite IH.
Qed.

Lemma print_rows_rank tbl : forall rank (i : nat) r,
  print_rows tbl rank !! i = Some r -> row_rank r = rank + Z.of_nat i.
Proof.
  induction tbl as [|u tl IH]; intros rank i r H; cbn in H; [discriminate|].
  destruct (UserEntry.cpu_ms u <=? 0); [now apply IH|].
  destruct i as [|i]; cbn in H.
  - inversion H; subst. cbn. lia.
  - apply IH in H. lia.
Qed.

Lemma print_rows_from tbl rank r :
  In r (print_rows tbl rank) ->
  exists u, In u tbl /\ row_ms r = UserEntry.cpu_ms u /\ 0 < row_ms r.
Proof.
  revert rank. induction tbl as [|u tl IH]; intros rank H; cbn in H; [contradiction|].
  destruct (UserEntry.cpu_ms u <=? 0) eqn:E.
  - apply IH in H as (v & Hv & Hm). exists v. split; [now right | exact Hm].
  - destruct H as [<- | H].
    + exists u. apply Z.leb_gt in E. cbn. auto.
    + apply IH in H as (v & Hv & Hm). exists v. split; [now right | exact Hm].
Qed.

Lemma print_rows_sorted tbl rank :
  StronglySorted (fun a b => cmp_cpu_desc a b <= 0) tbl ->
  StronglySorted (fun r r' => row_ms r' <= row_ms r) (print_rows tbl rank).
Proof.
  intros Hs. revert rank.
  induction Hs as [|u tl Hs IH Hall]; intros rank; cbn; [constructor|].
  destruct (UserEntry.cpu_ms u <=? 0); [apply IH|].
  constructor; [apply IH|].
  apply List.Forall_forall. intros r Hr.
  apply print_rows_from in Hr as (v & Hv & -> & _).
  rewrite List.Forall_forall in Hall. apply cmp_cpu_desc_le. cbn. auto.
Qed.

(** Three entries with distinct times have one sorted arrangement. *)
Lemma sorted_three (hi mid lo : UserEntry.t) l :
  UserEntry.cpu_ms lo < UserEntry.cpu_ms mid < UserEntry.cpu_ms hi ->
  Permutation [mid; lo; hi] l ->
  StronglySorted (fun a b => cmp_cpu_desc a b <= 0) l ->
  l = [hi; mid; lo].
Proof.
  intros Hlt Hp Hs.
  destruct (Permutation_vs_cons_inv (Permutation_sym Hp)) as (l1 & l2 & ->).
  apply Permutation_cons_app_inv in Hp.
  apply Permutation_length_2_inv in Hp.
  assert (forall a b, cmp_cpu_desc a b <= 0 -> UserEntry.cpu_ms b <= UserEntry.cpu_ms a)
    as Hle by (intros a b; apply cmp_cpu_desc_le).
  destruct Hp as [Hp | Hp];
    destruct l1 as [|x [|y [|z l1]]]; cbn in Hp; inversion Hp; subst; cbn in Hs;
    try reflexivity; exfalso;
    repeat match goal with
           | H : StronglySorted _ (_ :: _) |- _ => inversion H; subst; clear H
           | H : Forall _ (_ :: _) |- _ => inversion H; subst; clear H
           | H : cmp_cpu_desc _ _ <= 0 |- _ => apply Hle in H
           end; lia.
Qed.

(** ** Lemmas on the arguments of main *)

Lemma digit_not_space_or_sign c :
  isdigit c = true ->
  isspace c = false /\ c <> "-"%char /\ c <> "+"%char.
Proof.
  destruct c as [[] [] [] [] [] [] [] []]; cbn; intros H;
    try discriminate H; repeat split; discriminate.
Qed.

Lemma atoi_digits s :
  positive_integer_text s = true ->
  atoi s = as_int (leading_digits s 0) /\ 0 < leading_digits s 0.
Proof.
  unfold positive_integer_text, all_digits. destruct s as [|c s]; [discriminate|].
  intros H. apply andb_true_iff in H as [Hd Hv]. apply Z.ltb_lt in Hv.
  split; [|exact Hv].
  cbn [list_ascii_of_string forallb] in Hd. apply andb_true_iff in Hd as [Hc _].
  destruct (digit_not_space_or_sign c Hc) as (Hsp & Hm & Hp).
  unfold atoi. cbn [skip_spaces]. rewrite Hsp.
  destruct c as [[] [] [] [] [] [] [] []]; try reflexivity; congruence.
Qed.

Lemma monitor_ok qsort duration clk_tck proc out :
  monitor qsort duration clk_tck proc = Ok out ->
  exit_status out = 0 /\ passes out = S (Z.to_nat duration) /\ stderr out = [].
Proof.
  unfold monitor. intros H. res_split H as st1 E1. res_split H as r Er.
  destruct r as [k st2]. inversion H; subst out. cbn.
  apply sample_loop_ok in Er as (-> & _). auto.
Qed.

(** * Properties from the specification *)

(** C1, amended.  For a process recorded by the baseline pass and seen by
    every later sample with the same owner and counters [c0 <= c1 <= ... <=
    cN], the milliseconds its owner gains at those sightings are the sum of
    the per-tick conversions [(ci - c(i-1)) * 1000 / hz].  That sum never
    exceeds the single conversion [(cN - c0) * 1000 / hz], and is equal to it
    whenever [hz] divides 1000 (as the usual and the fallback value 100
    do). *)
Theorem no_double_count pid uid base ticks :
  watched pid uid base ticks ->
  0 < hz (before base) ->
  nondecreasing (counter_of pid base) (map (counter_of pid) ticks) ->
  Forall (fun s => can_track uid (before s) = true) ticks ->
  attributed uid (base :: ticks) =
    per_tick_ms (hz (before base)) (counter_of pid base) (map (counter_of pid) ticks) /\
  attributed uid (base :: ticks) <=
    (List.last (map (counter_of pid) ticks) (counter_of pid base) - counter_of pid base)
    * 1000 / hz (before base) /\
  ((hz (before base) | 1000) ->
   attributed uid (base :: ticks) =
    (List.last (map (counter_of pid) ticks) (counter_of pid base) - counter_of pid base)
    * 1000 / hz (before base)).
Proof.
  intros Hw Hhz Hnd Htr.
  destruct (watched_baseline _ _ _ _ Hw) as [Hb Hfol].
  assert (attributed uid (base :: ticks) =
          per_tick_ms (hz (before base)) (counter_of pid base) (map (counter_of pid) ticks))
    as Hsum.
  { change (attributed uid (base :: ticks))
      with (gained uid base + attributed uid ticks).
    assert (gained uid base = 0) as -> by (unfold gained, cpu_of; rewrite Hb; cbn; lia).
    rewrite (followed_attributed pid uid ticks (after base)); rewrite ?Hb; auto.
    - rewrite slot_at_store. reflexivity.
    - rewrite slot_at_store. apply first_sight_false. cbn. split; [lia | reflexivity].
    - rewrite <- Hb. exact Hfol.
    - rewrite slot_at_store. exact Hnd. }
  rewrite Hsum. split; [reflexivity|]. split.
  - now apply per_tick_ms_le.
  - intros Hdiv. now apply per_tick_ms_exact.
Qed.

(** C3.  A process recorded by the baseline pass whose counter is the same
    at every later sighting gains its owner nothing, however many samples
    see it: the baseline pass leaves the user table as it was and each
    later sighting leaves the whole state as it was. *)
Theorem baseline_exclusion pid uid base ticks :
  watched pid uid base ticks ->
  Forall (fun s => counter_of pid s = counter_of pid base) ticks ->
  attributed uid (base :: ticks) = 0 /\
  user_table (after base) = user_table (before base) /\
  Forall (fun s => after s = before s) ticks.
Proof.
  intros Hw Hsame.
  destruct (watched_baseline _ _ _ _ Hw) as [Hb Hfol].
  assert (Forall (fun s => after s = before s) ticks) as Hun.
  { apply (followed_unchanged pid uid ticks (after base)); auto.
    - rewrite Hb, slot_at_store. apply first_sight_false. cbn. split; [lia | reflexivity].
    - rewrite Hb, slot_at_store. exact Hsame. }
  split; [|split; [rewrite Hb; reflexivity | exact Hun]].
  change (attributed uid (base :: ticks)) with (gained uid base + attributed uid ticks).
  rewrite attributed_unchanged by exact Hun.
  unfold gained, cpu_of. rewrite Hb. cbn. lia.
Qed.

(** C2, amended.  The slot of [pid] is active with owner [A] and counter
    [c0]; a regular sample reads [pid] with another owner [B] and a counter
    [c1 < c0].  If [B] already has an entry in the user table or the table
    has room for one (and the conversion and [B]'s new total fit [long
    long]), the iteration gives [B] exactly [c1 * 1000 / hz] milliseconds,
    leaves the time of [A] and of every other owner as it was, and
    overwrites the slot with owner [B] and counter [c1]. *)
Theorem pid_reuse_other_owner fs d_name pid A B c0 c1 st :
  observes fs d_name pid c1 B ->
  PidSlot.active (slot_at st pid) <> 0 ->
  PidSlot.uid (slot_at st pid) = A ->
  PidSlot.prev_jiffies (slot_at st pid) = c0 ->
  B <> A -> c1 < c0 ->
  0 < hz st ->
  c1 * 1000 <= LLONG_MAX ->
  can_track B st = true ->
  LLONG_MIN <= cpu_of B st + c1 * 1000 / hz st <= LLONG_MAX ->
  exists st',
    do_entry 0 fs d_name st = Ok st' /\
    cpu_of B st' = cpu_of B st + c1 * 1000 / hz st /\
    cpu_of A st' = cpu_of A st /\
    (forall u, u <> B -> cpu_of u st' = cpu_of u st) /\
    slot_at st' pid = PidSlot.mk 1 B c1.
Proof.
  intros Ho Ha HA Hc0 Hne Hlt Hhz Hm Htr Hr.
  rewrite (do_entry_observes _ _ _ _ _ _ _ Ho).
  destruct Ho as (_ & Hp & _ & Hj & _).
  assert (first_sight (slot_at st pid) B = true) as Hf
    by (apply first_sight_true; right; congruence).
  destruct (do_proc_tick_first_defined pid c1 B st) as [st' Hd]; auto; try lia.
  exists st'. split; [exact Hd|].
  destruct (do_proc_tick_first _ _ _ _ _ Hd Hf Hhz Hj) as (Hs & Ho' & Hg & _).
  repeat split; auto.
Qed.

(** C5, amended.  On a baseline pass ([is_baseline] not 0) a process whose
    slot is already active under the same owner is left alone: nothing is
    attributed and the slot keeps the counter recorded before; the whole
    state is unchanged. *)
Theorem baseline_known_untouched is_baseline fs d_name pid uid c st :
  observes fs d_name pid c uid ->
  is_baseline <> 0 ->
  PidSlot.active (slot_at st pid) <> 0 ->
  PidSlot.uid (slot_at st pid) = uid ->
  do_entry is_baseline fs d_name st = Ok st.
Proof.
  intros Ho Hb Ha Hu. rewrite (do_entry_observes _ _ _ _ _ _ _ Ho).
  destruct Ho as (_ & Hp & _).
  apply do_proc_baseline_known; [lia | exact Hb |].
  apply first_sight_false. auto.
Qed.

(** C6.  On a regular sample, a process whose slot is active under the same
    owner and whose counter [c] is below the recorded one gets a delta of
    zero: the user table is not touched, and the slot records [c]. *)
Theorem negative_delta_guard fs d_name pid uid c st :
  observes fs d_name pid c uid ->
  PidSlot.active (slot_at st pid) <> 0 ->
  PidSlot.uid (slot_at st pid) = uid ->
  c < PidSlot.prev_jiffies (slot_at st pid) ->
  PidSlot.prev_jiffies (slot_at st pid) <= LLONG_MAX ->
  exists st',
    do_entry 0 fs d_name st = Ok st' /\
    user_table st' = user_table st /\
    (forall u, cpu_of u st' = cpu_of u st) /\
    slot_at st' pid = PidSlot.mk (PidSlot.active (slot_at st pid)) uid c.
Proof.
  intros Ho Ha Hu Hlt Hmax. rewrite (do_entry_observes _ _ _ _ _ _ _ Ho).
  destruct Ho as (_ & Hp & _ & Hj & _).
  rewrite do_proc_tick_no_gain;
    [ | lia | apply first_sight_false; auto | lia | unfold LLONG_MIN, LLONG_MAX in *; lia ].
  eexists. split; [reflexivity|].
  split; [reflexivity|]. split; [reflexivity|]. apply slot_at_store.
Qed.

(** C10.  When a pid is taken by a new process of the same owner [B] whose
    counter [c1] is below the recorded one, the sample takes the
    clamped-delta path: [B] gains nothing, also when the full counter would
    convert to a positive number of milliseconds.  More generally a slot
    that is active under the same owner never earns more than the conversion
    of the clamped delta. *)
Theorem same_owner_reuse_clamped fs d_name pid B c1 st :
  observes fs d_name pid c1 B ->
  PidSlot.active (slot_at st pid) <> 0 ->
  PidSlot.uid (slot_at st pid) = B ->
  0 < hz st ->
  (c1 < PidSlot.prev_jiffies (slot_at st pid) ->
   PidSlot.prev_jiffies (slot_at st pid) <= LLONG_MAX ->
   exists st',
     do_entry 0 fs d_name st = Ok st' /\
     cpu_of B st' = cpu_of B st /\
     (0 < c1 * 1000 / hz st -> cpu_of B st' <> cpu_of B st + c1 * 1000 / hz st) /\
     slot_at st' pid = PidSlot.mk (PidSlot.active (slot_at st pid)) B c1) /\
  (forall st',
     do_entry 0 fs d_name st = Ok st' ->
     cpu_of B st' - cpu_of B st <=
     Z.max 0 (c1 - PidSlot.prev_jiffies (slot_at st pid)) * 1000 / hz st).
Proof.
  intros Ho Ha Hu Hhz. rewrite (do_entry_observes _ _ _ _ _ _ _ Ho).
  destruct Ho as (_ & Hp & _ & Hj & _).
  assert (first_sight (slot_at st pid) B = false) as Hf
    by (apply first_sight_false; auto).
  split.
  - intros Hlt Hmax.
    rewrite do_proc_tick_no_gain;
      [ | lia | exact Hf | lia | unfold LLONG_MIN, LLONG_MAX in *; lia ].
    eexists. split; [reflexivity|].
    split; [reflexivity|]. split; [|apply slot_at_store].
    intros Hpos. unfold cpu_of. cbn. lia.
  - intros st' Hd.
    destruct (do_proc_tick_known _ _ _ _ _ Hd Hf Hhz) as (_ & _ & Hg & _).
    destruct (can_track B st) eqn:Htr.
    + rewrite (Hg eq_refl). lia.
    + unfold do_proc in Hd. rewrite slot_index_in in Hd by lia. cbn [bind] in Hd.
      fold (first_sight (slot_at st pid) B) in Hd. rewrite Hf in Hd. cbn [Z.eqb] in Hd.
      res_split Hd as d Ed.
      assert (0 <= Z.max 0 (c1 - PidSlot.prev_jiffies (slot_at st pid)) * 1000 / hz st)
        by (apply Z.div_pos; lia).
      destruct (_ >? 0).
      * res_split Hd as t Et. res_split Hd as ms Ems.
        apply credit_ok in Hd as (_ & _ & _ & _ & Hn & _).
        rewrite Hn by exact Htr. unfold cpu_of. cbn. lia.
      * inversion Hd; subst st'. unfold cpu_of. cbn. lia.
Qed.

(** C4.  No pass of [do_sample], baseline or not, over any /proc and from
    any state with a positive [hz] (which [main] ensures), lowers a user
    accumulator: every entry of the user table keeps its place and owner
    and its [cpu_ms] does not decrease, so the time recorded for any owner
    does not decrease; the same holds over the whole sampling loop.  (A pass
    in which a signed overflow occurs has no defined behaviour and is not
    covered.) *)
Theorem cpu_ms_monotone is_baseline fs st st' :
  0 < hz st ->
  do_sample is_baseline fs st = Ok st' ->
  (forall (i : nat) u,
     user_table st !! i = Some u ->
     exists u', user_table st' !! i = Some u' /\
                UserEntry.uid u' = UserEntry.uid u /\
                UserEntry.cpu_ms u <= UserEntry.cpu_ms u') /\
  (forall uid, cpu_of uid st <= cpu_of uid st') /\
  (forall n proc k k' st'' uid,
     sample_loop n proc k st' = Ok (k', st'') -> cpu_of uid st <= cpu_of uid st'').
Proof.
  intros Hhz Hd. apply do_sample_ok in Hd as (Hh & _ & Hg).
  specialize (Hg Hhz). split; [|split].
  - intros i u Hi. destruct (grows_lookup _ _ _ _ Hg Hi) as (u' & H1 & H2 & _ & H3).
    eauto.
  - intros uid. now apply grows_cpu_of.
  - intros n proc k k' st'' uid Hl.
    apply sample_loop_ok in Hl as (_ & _ & Hg').
    apply grows_cpu_of. eapply grows_trans; [exact Hg | apply Hg'; lia].
Qed.

(** C9.  An entry of /proc whose name is not all digits, or whose pid is
    not positive or is [PID_MAX] or more, is skipped: the iteration returns
    the state it was given.  No iteration indexes [pid_slots] outside its
    bounds, a slot whose content changes has an index from 1 to 65535, and
    a state can only change when the name is the decimal form of such an
    index. *)
Theorem invalid_entries_skipped is_baseline fs d_name st :
  (forall valid pid,
     scan_name d_name 0 = Ok (valid, pid) ->
     all_digits d_name = false \/ pid <= 0 \/ PID_MAX <= pid ->
     do_entry is_baseline fs d_name st = Ok st) /\
  do_entry is_baseline fs d_name st <> Ub OutOfBounds /\
  (forall st',
     do_entry is_baseline fs d_name st = Ok st' ->
     (forall q, ~ 1 <= q <= 65535 -> pid_slots st' !! q = pid_slots st !! q) /\
     (st' <> st -> exists pid, scan_name d_name 0 = Ok (1, pid) /\ 1 <= pid <= 65535)).
Proof.
  split; [|split].
  - intros valid pid Hs Hbad. unfold do_entry. rewrite Hs. cbn [bind].
    pose proof (scan_name_valid _ _ _ _ Hs) as Hv.
    destruct Hbad as [Hn | [Hn | Hn]].
    + rewrite Hn in Hv. subst valid. reflexivity.
    + apply Z.leb_le in Hn. rewrite Hn. now rewrite orb_true_r.
    + rewrite <- Z.geb_le in Hn. rewrite Hn. now rewrite orb_true_r.
  - apply do_entry_not_oob.
  - intros st' Hd. split.
    + intros q Hq. apply do_entry_ok in Hd as (_ & Hs & _).
      apply Hs. unfold PID_MAX. lia.
    + intros Hne.
      destruct (do_entry_cases is_baseline fs d_name st)
        as [Hsame | [(f & _ & Hf & _) | (pid & Hs & Hp & _)]].
      * rewrite Hsame in Hd. inversion Hd. congruence.
      * congruence.
      * exists pid. split; [exact Hs | unfold PID_MAX in Hp; lia].
Qed.

(** C7.  Whatever [qsort] meeting its contract does with equal keys, the
    rows of the report are the entries of the user table with a strictly
    positive [cpu_ms], each with its name and time, in order of descending
    time, ranked 1, 2, 3, ... without gaps; entries with [cpu_ms <= 0] give no
    row.  With the accumulators A: 1500, B: 0, C: 3200 the report is C with
    rank 1 and 3200, then A with rank 2 and 1500. *)
Theorem report_ranked qsort st :
  qsort_contract qsort ->
  Permutation
    (map (fun r => (row_user r, row_ms r)) (report qsort st))
    (map (fun u => (UserEntry.name u, UserEntry.cpu_ms u))
         (List.filter (fun u => 0 <? UserEntry.cpu_ms u) (user_table st))) /\
  StronglySorted (fun r r' => row_ms r' <= row_ms r) (report qsort st) /\
  (forall (i : nat) r, report qsort st !! i = Some r -> row_rank r = Z.of_nat i + 1) /\
  Forall (fun r => 0 < row_ms r) (report qsort st) /\
  (forall ua ub uc,
     user_table st = [UserEntry.mk ua 1500 "A"; UserEntry.mk ub 0 "B";
                      UserEntry.mk uc 3200 "C"] ->
     report qsort st = [mkRow 1 "C" 3200; mkRow 2 "A" 1500]).
Proof.
  intros Hq. destruct (Hq (user_table st)) as [Hperm Hsorted]. unfold report.
  split; [|split; [|split; [|split]]].
  - rewrite print_rows_content. apply Permutation_map, filter_perm.
    now apply Permutation_sym.
  - now apply print_rows_sorted.
  - intros i r Hi. apply print_rows_rank in Hi. lia.
  - apply List.Forall_forall. intros r Hr. now apply print_rows_from in Hr as (_ & _ & _ & ?).
  - intros ua ub uc Htbl. rewrite Htbl in *.
    rewrite (sorted_three (UserEntry.mk uc 3200 "C") (UserEntry.mk ua 1500 "A")
               (UserEntry.mk ub 0 "B") _) ; auto.
    cbn. lia.
Qed.

(** C8, amended.  [main] returns 1 without a single pass over /proc when it
    is not given exactly one argument, and when [atoi] of the argument is
    zero or negative.  When [atoi] of the argument is positive, [main] goes
    on to sample: a run that completes has made the baseline pass and one
    pass per second of the duration, and returns 0.  A positive integer
    written in decimal digits that fits [int] is such an argument, with its
    value as the duration; so is any text that starts with one. *)
Theorem usage_errors qsort argv clk_tck proc :
  (length argv <> 2%nat ->
   exists msg, main qsort argv clk_tck proc = Ok (mkOutcome 1 0 msg [])) /\
  (forall prog arg d,
     argv = [prog; arg] -> atoi arg = Ok d -> d <= 0 ->
     exists msg, main qsort argv clk_tck proc = Ok (mkOutcome 1 0 msg [])) /\
  (forall prog arg d,
     argv = [prog; arg] -> atoi arg = Ok d -> 0 < d ->
     main qsort argv clk_tck proc = monitor qsort d clk_tck proc /\
     forall out, monitor qsort d clk_tck proc = Ok out ->
                 exit_status out = 0 /\ passes out = S (Z.to_nat d)) /\
  (forall arg,
     positive_integer_text arg = true -> leading_digits arg 0 <= INT_MAX ->
     atoi arg = Ok (leading_digits arg 0) /\ 0 < leading_digits arg 0).
Proof.
  split; [|split; [|split]].
  - intros Hlen. unfold main.
    destruct (Z.of_nat (length argv) =? 2) eqn:E; [apply Z.eqb_eq in E; lia|].
    cbn [negb]. eauto.
  - intros prog arg d -> Ha Hd. unfold main. cbn [length nth Z.of_nat].
    cbn [Z.eqb Pos.eqb Pos.of_succ_nat Pos.succ negb]. rewrite Ha. cbn [bind].
    apply Z.leb_le in Hd. rewrite Hd. eauto.
  - intros prog arg d -> Ha Hd. split.
    + unfold main. cbn [length nth Z.of_nat].
      cbn [Z.eqb Pos.eqb Pos.of_succ_nat Pos.succ negb]. rewrite Ha. cbn [bind].
      apply Z.leb_gt in Hd. now rewrite Hd.
    + intros out Ho. apply monitor_ok in Ho. tauto.
  - intros arg Hp Hmax. destruct (atoi_digits arg Hp) as [Ha Hv].
    split; [|exact Hv]. rewrite Ha. apply as_int_in. unfold INT_MIN. lia.
Qed.

(** * Further properties of the code *)

(** ** find_user and the user table *)

Lemma scan_users_absent uid tbl k :
  scan_users uid tbl k = None <-> ~ In uid (map UserEntry.uid tbl).
Proof.
  revert k. induction tbl as [|e tl IH]; intros k; cbn.
  - tauto.
  - destruct (UserEntry.uid e =? uid) eqn:E.
    + apply Z.eqb_eq in E. split; [discriminate | tauto].
    + apply Z.eqb_neq in E. rewrite IH. tauto.
Qed.

Lemma scan_users_lookup uid tbl k j :
  scan_users uid tbl k = Some j ->
  exists (i : nat) e, j = (k + i)%nat /\ tbl !! i = Some e /\ UserEntry.uid e = uid.
Proof.
  revert k. induction tbl as [|x tl IH]; intros k H; cbn in H; [discriminate|].
  destruct (UserEntry.uid x =? uid) eqn:E.
  - inversion H; subst. apply Z.eqb_eq in E. exists 0%nat, x. repeat split; auto; lia.
  - apply IH in H as (i & e & -> & Hi & He). exists (S i), e. repeat split; auto; lia.
Qed.

Lemma scan_users_added uid tbl k e :
  scan_users uid tbl k = None -> UserEntry.uid e = uid ->
  scan_users uid (tbl ++ [e]) k = Some (k + length tbl)%nat.
Proof.
  revert k. induction tbl as [|x tl IH]; intros k H He; cbn in *.
  - apply Z.eqb_eq in He. rewrite He. f_equal. lia.
  - destruct (UserEntry.uid x =? uid); [discriminate|].
    rewrite IH by auto. f_equal. lia.
Qed.

Lemma with_cpu_uids uid v tbl :
  (In uid (map UserEntry.uid tbl) /\
   map UserEntry.uid (with_cpu uid v tbl) = map UserEntry.uid tbl /\
   length (with_cpu uid v tbl) = length tbl) \/
  (~ In uid (map UserEntry.uid tbl) /\
   with_cpu uid v tbl = tbl ++ [UserEntry.mk uid v (user_name uid)]).
Proof.
  induction tbl as [|e tl IH]; cbn.
  - right. tauto.
  - destruct (UserEntry.uid e =? uid) eqn:E.
    + apply Z.eqb_eq in E. left. cbn. auto.
    + apply Z.eqb_neq in E. destruct IH as [(Hin & Hm & Hl) | (Hn & Hw)].
      * left. cbn. rewrite Hm, Hl. auto.
      * right. rewrite Hw. tauto.
Qed.

Lemma can_track_room uid st :
  can_track uid st = true ->
  In uid (map UserEntry.uid (user_table st)) \/ user_count st < MAX_USERS.
Proof.
  unfold can_track. destruct (scan_users uid (user_table st) 0) eqn:E.
  - intros _. left.
    destruct (in_dec Z.eq_dec uid (map UserEntry.uid (user_table st))) as [Hin|Hn]; auto.
    apply (scan_users_absent uid _ 0%nat) in Hn. congruence.
  - intros H. right. now apply Z.ltb_lt.
Qed.

Lemma substring_length n s : (String.length (String.substring 0 n s) <= n)%nat.
Proof.
  revert s. induction n as [|n IH]; intros s; destruct s as [|c s]; cbn; try lia.
  specialize (IH s). lia.
Qed.

Lemma user_name_length uid : (String.length (user_name uid) <= 63)%nat.
Proof.
  unfold user_name, snprintf64. destruct (getpwuid uid); apply substring_length.
Qed.

(** A property of the user table that crediting an owner keeps is kept by
    every pass. *)
Lemma credit_table_inv (P : list UserEntry.t -> Prop) :
  (forall uid v st, can_track uid st = true ->
     P (user_table st) -> P (with_cpu uid v (user_table st))) ->
  forall uid ms st st',
    credit uid ms st = Ok st' -> P (user_table st) -> P (user_table st').
Proof.
  intros Hstep uid ms st st'. rewrite credit_eq.
  destruct (can_track uid st) eqn:Htr.
  - intros H HP. res_split H as v Ev. inversion H; subst st'. cbn. auto.
  - intros H HP. inversion H; subst st'. exact HP.
Qed.

Lemma do_proc_table_inv (P : list UserEntry.t -> Prop) :
  (forall uid v st, can_track uid st = true ->
     P (user_table st) -> P (with_cpu uid v (user_table st))) ->
  forall is_baseline pid jiffies uid st st',
    do_proc is_baseline pid jiffies uid st = Ok st' ->
    P (user_table st) -> P (user_table st').
Proof.
  intros Hstep is_baseline pid jiffies uid st st' H HP.
  unfold do_proc in H. res_split H as p Ep.
  destruct (_ || _).
  - destruct (negb _).
    + inversion H; subst st'. exact HP.
    + res_split H as t Et. res_split H as ms Ems. res_split H as st1 Est1.
      inversion H; subst st'. cbn.
      destruct (ms >? 0).
      * eapply credit_table_inv; eauto.
      * inversion Est1; subst st1. exact HP.
  - destruct (is_baseline =? 0).
    + res_split H as d Ed. destruct (_ >? 0).
      * res_split H as t Et. res_split H as ms Ems.
        eapply credit_table_inv in H; eauto.
      * inversion H; subst st'. exact HP.
    + inversion H; subst st'. exact HP.
Qed.

Lemma do_sample_table_inv (P : list UserEntry.t -> Prop) :
  (forall uid v st, can_track uid st = true ->
     P (user_table st) -> P (with_cpu uid v (user_table st))) ->
  forall is_baseline fs st st',
    do_sample is_baseline fs st = Ok st' ->
    P (user_table st) -> P (user_table st').
Proof.
  intros Hstep is_baseline fs st st'. unfold do_sample.
  destruct (proc_dir fs) as [names|]; [|intros H HP; inversion H; subst; exact HP].
  revert st. induction names as [|d rest IH]; intros st H HP; cbn in H.
  - inversion H; subst. exact HP.
  - res_split H as st1 E1. apply (IH st1 H).
    destruct (do_entry_cases is_baseline fs d st)
      as [Hsame | [(f & _ & Hf & _) | (pid & _ & _ & _ & _ & Hd)]].
    + rewrite Hsame in E1. inversion E1; subst. exact HP.
    + congruence.
    + rewrite Hd in E1. eapply do_proc_table_inv; eauto.
Qed.

(** X7.  [find_user] returns a pointer to an entry of the owner asked for:
    the one already in the table (which is then unchanged), or a new last
    entry with no time; asking again returns the same pointer and changes
    nothing.  It returns [NULL] only when the owner is absent and the table
    already holds [MAX_USERS] entries, and then it changes nothing. *)
Theorem find_user_spec uid st :
  (forall i st1,
     find_user uid st = (Some i, st1) ->
     find_user uid st1 = (Some i, st1) /\
     pid_slots st1 = pid_slots st /\ hz st1 = hz st /\
     exists e, user_table st1 !! i = Some e /\ UserEntry.uid e = uid /\
       (user_table st1 = user_table st \/
        (~ In uid (map UserEntry.uid (user_table st)) /\
         user_count st < MAX_USERS /\
         user_table st1 = user_table st ++ [e] /\
         e = UserEntry.mk uid 0 (user_name uid)))) /\
  (forall st1,
     find_user uid st = (None, st1) ->
     st1 = st /\ ~ In uid (map UserEntry.uid (user_table st)) /\
     MAX_USERS <= user_count st).
Proof.
  unfold find_user. destruct (scan_users uid (user_table st) 0) as [j|] eqn:Hs.
  - split; [|intros st1 H; discriminate H].
    intros i st1 H. inversion H; subst i st1. rewrite Hs.
    repeat split; auto.
    apply scan_users_lookup in Hs as (i & e & -> & Hi & He).
    exists e. cbn. auto.
  - pose proof (proj1 (scan_users_absent uid _ 0%nat) Hs) as Habs.
    destruct (user_count st >=? MAX_USERS) eqn:Hfull.
    + split; [intros i st1 H; discriminate H|].
      intros st1 H. inversion H; subst st1. rewrite Z.geb_leb in Hfull.
      apply Z.leb_le in Hfull. auto.
    + split; [|intros st1 H; discriminate H].
      intros i st1 H. inversion H; subst i st1. cbn [user_table set_users pid_slots hz].
      rewrite (scan_users_added uid _ 0%nat (UserEntry.mk uid 0 (user_name uid)) Hs eq_refl).
      cbn [Nat.add].
      repeat split; auto.
      exists (UserEntry.mk uid 0 (user_name uid)).
      rewrite lookup_last_added. rewrite Z.geb_leb in Hfull. apply Z.leb_gt in Hfull.
      split; [reflexivity|]. split; [reflexivity|]. right. auto.
Qed.

(** X8.  A pass never enters an owner twice nor more than [MAX_USERS]
    owners: if the owners of the user table are distinct and at most
    [MAX_USERS], they still are after [do_sample]. *)
Theorem owners_stay_distinct is_baseline fs st st' :
  owners_distinct st -> user_count st <= MAX_USERS ->
  do_sample is_baseline fs st = Ok st' ->
  owners_distinct st' /\ user_count st' <= MAX_USERS.
Proof.
  intros Hd Hc H. unfold owners_distinct, user_count in *.
  apply (do_sample_table_inv
           (fun tbl => List.NoDup (map UserEntry.uid tbl) /\
                       Z.of_nat (length tbl) <= MAX_USERS)) in H; auto.
  clear. intros uid v st Htr [Hnd Hlen].
  destruct (with_cpu_uids uid v (user_table st)) as [(Hin & Hm & Hl) | (Hn & Hw)].
  - rewrite Hm, Hl. auto.
  - rewrite Hw, map_app, length_app. cbn. split.
    + apply List.NoDup_app; [exact Hnd | repeat constructor; intros [] |].
      intros a Ha [<- | []]. contradiction.
    + apply can_track_room in Htr as [Hin | Hroom]; [contradiction|].
      unfold user_count in Hroom. lia.
Qed.

(** X9.  Every name a pass stores fits the 64-byte field: if all names of
    the user table have at most 63 characters, they still have after
    [do_sample], whatever the passwd database returns. *)
Theorem names_stay_short is_baseline fs st st' :
  names_fit st ->
  do_sample is_baseline fs st = Ok st' ->
  names_fit st'.
Proof.
  intros Hn H. unfold names_fit in *.
  apply (do_sample_table_inv
           (Forall (fun e => (String.length (UserEntry.name e) <= 63)%nat))) in H; auto.
  clear. intros uid v st _. generalize (user_table st). intros tbl Hf.
  induction Hf as [|e tl He Hf IH]; cbn.
  - constructor; [apply user_name_length | constructor].
  - destruct (UserEntry.uid e =? uid); constructor; auto.
Qed.

(** ** The passes *)


Lemma do_entry_baseline is_baseline fs d_name st :
  is_baseline <> 0 ->
  (forall st', do_entry is_baseline fs d_name st = Ok st' ->
               user_table st' = user_table st) /\
  ((exists r, scan_name d_name 0 = Ok r) ->
   exists st', do_entry is_baseline fs d_name st = Ok st').
Proof.
  intros Hb.
  destruct (do_entry_cases is_baseline fs d_name st)
    as [Hsame | [(f & Hscan & Hf & _) | (pid & _ & Hp & _ & _ & Hd)]].
  - rewrite Hsame. split; [intros st' H; now inversion H | eauto].
  - rewrite Hf. split; [discriminate | intros [r Hr]; congruence].
  - rewrite Hd.
    destruct (first_sight (slot_at st pid) (read_proc_uid fs pid)) eqn:Hf.
    + rewrite do_proc_baseline_first by (auto; lia).
      split; [intros st' H; now inversion H | eauto].
    + rewrite do_proc_baseline_known by (auto; lia).
      split; [intros st' H; now inversion H | eauto].
Qed.

(** X5.  A baseline pass credits nobody: whatever /proc holds and whatever
    the state, [do_sample(1)] leaves the user table as it was.  It performs
    no arithmetic on counters, so it has defined behaviour as soon as every
    directory name scans without overflow. *)
Theorem baseline_credits_nobody is_baseline fs st :
  is_baseline <> 0 ->
  (forall st', do_sample is_baseline fs st = Ok st' ->
               user_table st' = user_table st) /\
  ((forall names, proc_dir fs = Some names ->
                  Forall (fun d => exists r, scan_name d 0 = Ok r) names) ->
   exists st', do_sample is_baseline fs st = Ok st').
Proof.
  intros Hb. unfold do_sample. destruct (proc_dir fs) as [names|].
  - assert (forall st0,
              (forall st', readdir_loop is_baseline fs names st0 = Ok st' ->
                           user_table st' = user_table st0) /\
              (Forall (fun d => exists r, scan_name d 0 = Ok r) names ->
               exists st', readdir_loop is_baseline fs names st0 = Ok st')) as Hloop.
    { induction names as [|d rest IH]; intros st0; cbn.
      - split; [intros st' H; now inversion H | eauto].
      - destruct (do_entry_baseline is_baseline fs d st0 Hb) as [Htbl Hdef]. split.
        + intros st' H. res_split H as st1 E1.
          rewrite (proj1 (IH st1) st' H). now apply Htbl.
        + intros Hall. inversion Hall as [|? ? Hd Hrest]; subst.
          destruct (Hdef Hd) as [st1 ->]. cbn [bind]. now apply IH. }
    destruct (Hloop st) as [H1 H2]. split; [exact H1|].
    intros Hall. apply H2. now apply Hall.
  - split; [intros st' H; now inversion H | eauto].
Qed.

(** X6.  A process that a regular sample sees for the first time (its slot
    was never used) is charged in full: its owner gains [jiffies * 1000 /
    hz] milliseconds, no other owner's time changes, and the slot becomes
    active with that owner and counter. *)
Theorem new_process_full_attribution fs d_name pid uid jiffies st :
  observes fs d_name pid jiffies uid ->
  PidSlot.active (slot_at st pid) = 0 ->
  0 < hz st ->
  jiffies * 1000 <= LLONG_MAX ->
  can_track uid st = true ->
  LLONG_MIN <= cpu_of uid st + jiffies * 1000 / hz st <= LLONG_MAX ->
  exists st',
    do_entry 0 fs d_name st = Ok st' /\
    cpu_of uid st' = cpu_of uid st + jiffies * 1000 / hz st /\
    (forall u, u <> uid -> cpu_of u st' = cpu_of u st) /\
    slot_at st' pid = PidSlot.mk 1 uid jiffies.
Proof.
  intros Ho Ha Hhz Hm Htr Hr.
  rewrite (do_entry_observes _ _ _ _ _ _ _ Ho).
  destruct Ho as (_ & Hp & _ & Hj & _).
  assert (first_sight (slot_at st pid) uid = true) as Hf
    by (apply first_sight_true; left; exact Ha).
  destruct (do_proc_tick_first_defined pid jiffies uid st) as [st' Hd]; auto; try lia.
  exists st'. split; [exact Hd|].
  destruct (do_proc_tick_first _ _ _ _ _ Hd Hf Hhz Hj) as (Hs & Ho' & Hg & _).
  repeat split; auto.
Qed.

(** X10.  When the user table is full and the owner of a newly seen process
    is not in it, a regular sample attributes the process to nobody: the
    user table is unchanged.  The slot is recorded all the same, so later
    samples treat the process as known and charge only its deltas. *)
Theorem full_table_drops_owner fs d_name pid uid jiffies st :
  observes fs d_name pid jiffies uid ->
  first_sight (slot_at st pid) uid = true ->
  can_track uid st = false ->
  0 < hz st ->
  jiffies * 1000 <= LLONG_MAX ->
  exists st',
    do_entry 0 fs d_name st = Ok st' /\
    user_table st' = user_table st /\
    slot_at st' pid = PidSlot.mk 1 uid jiffies.
Proof.
  intros Ho Hf Htr Hhz Hm.
  rewrite (do_entry_observes _ _ _ _ _ _ _ Ho).
  destruct Ho as (_ & Hp & _ & Hj & _).
  unfold do_proc. rewrite slot_index_in by lia. cbn [bind].
  fold (first_sight (slot_at st pid) uid). rewrite Hf. cbn [Z.eqb negb].
  unfold ll_mul. rewrite as_llong_in by (unfold LLONG_MIN; lia). cbn [bind].
  rewrite ms_in_range by lia. cbn [bind].
  rewrite credit_eq, Htr.
  destruct (_ >? 0); cbn [bind]; eexists;
    (split; [reflexivity | split; [reflexivity | apply slot_at_store]]).
Qed.

(** ** The slots *)

Lemma do_proc_slot_cases is_baseline pid jiffies uid st st' :
  do_proc is_baseline pid jiffies uid st = Ok st' ->
  slot_at st' pid = slot_at st pid \/
  slot_at st' pid = PidSlot.mk 1 uid jiffies \/
  (first_sight (slot_at st pid) uid = false /\
   slot_at st' pid =
   PidSlot.mk (PidSlot.active (slot_at st pid)) (PidSlot.uid (slot_at st pid)) jiffies).
Proof.
  unfold do_proc. intros H. res_split H as p Ep.
  apply slot_index_ok in Ep as [-> Hr].
  fold (first_sight (slot_at st pid) uid) in H.
  destruct (first_sight (slot_at st pid) uid) eqn:Hf.
  - right. left. destruct (negb _).
    + inversion H; subst st'. now rewrite slot_at_store.
    + res_split H as t Et. res_split H as ms Ems. res_split H as st1 Est1.
      inversion H; subst st'. now rewrite slot_at_store.
  - destruct (is_baseline =? 0); [right; right; split; [reflexivity|] | left; now inversion H].
    res_split H as d Ed. destruct (_ >? 0).
    + res_split H as t Et. res_split H as ms Ems.
      apply credit_ok in H as (Hs & _). rewrite (slot_at_eq _ _ _ Hs).
      now rewrite slot_at_store.
    + inversion H; subst st'. now rewrite slot_at_store.
Qed.

Lemma do_entry_slots_ok is_baseline fs d_name st st' :
  do_entry is_baseline fs d_name st = Ok st' ->
  slots_ok st ->
  slots_ok st' /\
  (forall q, PidSlot.active (slot_at st q) <> 0 -> PidSlot.active (slot_at st' q) <> 0).
Proof.
  intros H Hok.
  destruct (do_entry_cases is_baseline fs d_name st)
    as [Hsame | [(f & _ & Hf & _) | (pid & _ & Hp & Hj & Hu & Hd)]].
  - rewrite Hsame in H. inversion H; subst st'. auto.
  - congruence.
  - rewrite Hd in H.
    pose proof (do_proc_slot_cases _ _ _ _ _ _ H) as Hcases.
    pose proof (do_proc_ok _ _ _ _ _ _ H) as (_ & _ & Hframe & _).
    pose proof (read_proc_stat_range fs pid) as Hrange.
    assert (forall q, q <> pid -> slot_at st' q = slot_at st q) as Hother
      by (intros q Hq; unfold slot_at; now rewrite Hframe).
    split.
    + intros q. destruct (Z.eq_dec q pid) as [-> | Hq]; [|rewrite Hother; auto].
      destruct Hcases as [-> | [-> | [Hf ->]]]; [apply Hok | |].
      * right. cbn. repeat split; auto; lia.
      * apply first_sight_false in Hf as [Ha Hown].
        destruct (Hok pid) as [Hz | (H1 & H2 & H3)];
          [rewrite Hz in Ha; cbn in Ha; congruence|].
        right. cbn. repeat split; auto; lia.
    + intros q Ha. destruct (Z.eq_dec q pid) as [-> | Hq]; [|rewrite Hother; auto].
      destruct Hcases as [-> | [-> | [Hf ->]]]; cbn; auto; lia.
Qed.

(** X14.  The pid table stays well formed and records are never dropped:
    if every slot is either untouched or active with flag 1, an owner other
    than [(uid_t)-1] and a counter within [0, LLONG_MAX], the same holds
    after [do_sample], and a slot that was active is still active. *)
Theorem slots_stay_ok is_baseline fs st st' :
  slots_ok st ->
  do_sample is_baseline fs st = Ok st' ->
  slots_ok st' /\
  (forall pid, PidSlot.active (slot_at st pid) <> 0 ->
               PidSlot.active (slot_at st' pid) <> 0).
Proof.
  intros Hok. unfold do_sample.
  destruct (proc_dir fs) as [names|]; [|intros H; inversion H; subst; auto].
  revert st Hok. induction names as [|d rest IH]; intros st Hok H; cbn in H.
  - inversion H; subst. auto.
  - res_split H as st1 E1.
    destruct (do_entry_slots_ok _ _ _ _ _ E1 Hok) as [Hok1 Hact1].
    destruct (IH st1 Hok1 H) as [Hok' Hact']. auto.
Qed.

(** ** Faults *)

Lemma only_overflow_bind {A B : Type} (m : res A) (k : A -> res B) :
  only_overflow m ->
  (forall a, m = Ok a -> only_overflow (k a)) ->
  only_overflow (bind m k).
Proof.
  intros Hm Hk f. destruct m as [a|g]; cbn.
  - now apply Hk.
  - intros H. inversion H; subst. now apply Hm.
Qed.

Lemma only_overflow_ok {A : Type} (a : A) : only_overflow (Ok a).
Proof. intros f H. discriminate H. Qed.

Lemma as_llong_only z : only_overflow (as_llong z).
Proof. intros f. unfold as_llong. destruct (in_llong z); intros H; now inversion H. Qed.

Lemma as_int_only z : only_overflow (as_int z).
Proof. intros f. unfold as_int. destruct (in_int z); intros H; now inversion H. Qed.

Lemma ll_div_only a b : b <> 0 -> only_overflow (ll_div a b).
Proof.
  intros Hb. unfold ll_div. apply Z.eqb_neq in Hb. rewrite Hb. apply as_llong_only.
Qed.

Lemma credit_only uid ms st : only_overflow (credit uid ms st).
Proof.
  rewrite credit_eq. destruct (can_track uid st); [|apply only_overflow_ok].
  apply only_overflow_bind; [apply as_llong_only | intros; apply only_overflow_ok].
Qed.

Lemma scan_name_only s p : only_overflow (scan_name s p).
Proof.
  revert p. induction s as [|c s IH]; intros p; cbn; [apply only_overflow_ok|].
  destruct (isdigit c); [|apply only_overflow_ok].
  apply only_overflow_bind; [apply as_int_only | intros t _].
  apply only_overflow_bind; [apply as_int_only | intros q _; apply IH].
Qed.

Lemma do_proc_only is_baseline pid jiffies uid st :
  0 <= pid < PID_MAX -> hz st <> 0 ->
  only_overflow (do_proc is_baseline pid jiffies uid st).
Proof.
  intros Hp Hhz. unfold do_proc. rewrite slot_index_in by exact Hp. cbn [bind].
  destruct (_ || _).
  - destruct (negb _); [apply only_overflow_ok|].
    apply only_overflow_bind; [apply as_llong_only | intros t _].
    apply only_overflow_bind; [now apply ll_div_only | intros ms _].
    apply only_overflow_bind; [|intros; apply only_overflow_ok].
    destruct (ms >? 0); [apply credit_only | apply only_overflow_ok].
  - destruct (is_baseline =? 0); [|apply only_overflow_ok].
    apply only_overflow_bind; [apply as_llong_only | intros d _].
    destruct (_ >? 0); [|apply only_overflow_ok].
    apply only_overflow_bind; [apply as_llong_only | intros t _].
    apply only_overflow_bind; [now apply ll_div_only | intros ms _].
    apply credit_only.
Qed.

Lemma do_sample_only is_baseline fs st :
  hz st <> 0 -> only_overflow (do_sample is_baseline fs st).
Proof.
  intros Hhz. unfold do_sample.
  destruct (proc_dir fs) as [names|]; [|apply only_overflow_ok].
  revert st Hhz. induction names as [|d rest IH]; intros st Hhz; cbn;
    [apply only_overflow_ok|].
  apply only_overflow_bind.
  - destruct (do_entry_cases is_baseline fs d st)
      as [-> | [(f & Hs & -> & _) | (pid & _ & Hp & _ & _ & ->)]].
    + apply only_overflow_ok.
    + intros g Hg. inversion Hg; subst. exact (scan_name_only _ _ _ Hs).
    + apply do_proc_only; [lia | exact Hhz].
  - intros st1 E1. apply IH. apply do_entry_ok in E1 as (-> & _). exact Hhz.
Qed.

Lemma sample_loop_only n proc : forall k st,
  hz st <> 0 -> only_overflow (sample_loop n proc k st).
Proof.
  induction n as [|n IH]; intros k st Hhz; cbn; [apply only_overflow_ok|].
  apply only_overflow_bind; [now apply do_sample_only|].
  intros st1 E1. apply IH. apply do_sample_ok in E1 as (-> & _). exact Hhz.
Qed.

Lemma main_only_overflow qsort argv clk_tck proc :
  only_overflow (main qsort argv clk_tck proc).
Proof.
  unfold main. destruct (negb _); [apply only_overflow_ok|].
  apply only_overflow_bind.
  - unfold atoi.
    destruct (skip_spaces (nth 1 argv EmptyString)) as [|c r]; [apply as_int_only|].
    destruct c as [[] [] [] [] [] [] [] []]; apply as_int_only.
  - intros duration _. destruct (duration <=? 0); [apply only_overflow_ok|].
    unfold monitor.
    assert (hz (set_hz (clock_ticks clk_tck) initial_state) <> 0) as Hhz
      by (cbn; pose proof (clock_ticks_pos clk_tck); lia).
    apply only_overflow_bind; [now apply do_sample_only | intros st1 E1].
    apply do_sample_ok in E1 as (Hh1 & _).
    apply only_overflow_bind; [apply sample_loop_only; congruence|].
    intros [k st2] _. apply only_overflow_ok.
Qed.

Lemma do_sample_count is_baseline fs st st' :
  user_count st <= MAX_USERS ->
  do_sample is_baseline fs st = Ok st' ->
  user_count st' <= MAX_USERS.
Proof.
  intros Hc H. unfold user_count in *.
  apply (do_sample_table_inv (fun tbl => Z.of_nat (length tbl) <= MAX_USERS)) in H; auto.
  clear. intros uid v st Htr Hlen.
  destruct (with_cpu_uids uid v (user_table st)) as [(Hin & _ & Hl) | (Hn & Hw)].
  - now rewrite Hl.
  - rewrite Hw, length_app. cbn [length].
    apply can_track_room in Htr as [Hin | Hroom]; [contradiction|].
    unfold user_count in Hroom. lia.
Qed.

Lemma sample_loop_count n proc : forall k st k' st',
  user_count st <= MAX_USERS ->
  sample_loop n proc k st = Ok (k', st') ->
  user_count st' <= MAX_USERS.
Proof.
  induction n as [|n IH]; intros k st k' st' Hc H; cbn in H.
  - inversion H; subst. exact Hc.
  - res_split H as st1 E1. eapply IH; [|exact H].
    eapply do_sample_count; eauto.
Qed.

(** The pointer [find_user] returns lies inside [user_table] as long as the
    table holds at most [MAX_USERS] entries, and the table still does
    afterwards. *)
Lemma find_user_inside uid st i st1 :
  user_count st <= MAX_USERS ->
  find_user uid st = (Some i, st1) ->
  Z.of_nat i < MAX_USERS /\ user_count st1 <= MAX_USERS.
Proof.
  unfold find_user, user_count. intros Hc H.
  destruct (scan_users uid (user_table st) 0) as [j|] eqn:Hs.
  - inversion H; subst j st1. split; [|exact Hc].
    apply scan_users_lookup in Hs as (i' & e & -> & Hi & _). cbn [Nat.add].
    apply lookup_lt_Some in Hi. lia.
  - destruct (Z.of_nat (length (user_table st)) >=? MAX_USERS) eqn:Hfull;
      [discriminate H|].
    rewrite Z.geb_leb in Hfull. apply Z.leb_gt in Hfull.
    inversion H; subst i st1. cbn [user_table set_users].
    rewrite length_app. cbn [length]. lia.
Qed.

(** X12.  No run of [main] divides by zero, indexes [pid_slots] outside
    [0, PID_MAX) or lets [user_table] outgrow its [MAX_USERS] entries,
    whatever the arguments, the value of [sysconf] and the content of
    /proc: [hz] falls back to 100, the pid is tested before the slot is
    taken, and [find_user] refuses a new owner when the table is full, so
    after the baseline pass and any number of samples the table holds at
    most [MAX_USERS] entries and every pointer [find_user] returns lies
    inside the array. *)
Theorem main_stays_in_bounds qsort argv clk_tck proc :
  main qsort argv clk_tck proc <> Ub DivisionByZero /\
  main qsort argv clk_tck proc <> Ub OutOfBounds /\
  (forall n k st1 st2,
     do_sample 1 (proc O) (set_hz (clock_ticks clk_tck) initial_state) = Ok st1 ->
     sample_loop n proc 1 st1 = Ok (k, st2) ->
     user_count st2 <= MAX_USERS /\
     forall uid i st3,
       find_user uid st2 = (Some i, st3) ->
       Z.of_nat i < MAX_USERS /\ user_count st3 <= MAX_USERS).
Proof.
  split; [|split]; try (intros H; apply main_only_overflow in H; discriminate H).
  intros n k st1 st2 H1 H2.
  assert (user_count st2 <= MAX_USERS) as Hc.
  { eapply sample_loop_count; [|exact H2].
    eapply do_sample_count; [|exact H1].
    unfold user_count, set_hz, initial_state, MAX_USERS. cbn. lia. }
  split; [exact Hc|]. intros uid i st3 Hf. eapply find_user_inside; eauto.
Qed.

(** X15.  A process already known under the same owner whose counter has
    not gone back is charged its increase only: on a regular sample the
    owner gains [(jiffies - prev_jiffies) * 1000 / hz] milliseconds, no
    other owner's time changes, and the slot records the new counter. *)
Theorem known_process_delta fs d_name pid uid jiffies st :
  observes fs d_name pid jiffies uid ->
  PidSlot.active (slot_at st pid) <> 0 ->
  PidSlot.uid (slot_at st pid) = uid ->
  0 <= PidSlot.prev_jiffies (slot_at st pid) <= jiffies ->
  0 < hz st ->
  (jiffies - PidSlot.prev_jiffies (slot_at st pid)) * 1000 <= LLONG_MAX ->
  can_track uid st = true ->
  LLONG_MIN <=
    cpu_of uid st + (jiffies - PidSlot.prev_jiffies (slot_at st pid)) * 1000 / hz st
    <= LLONG_MAX ->
  exists st',
    do_entry 0 fs d_name st = Ok st' /\
    cpu_of uid st' =
      cpu_of uid st + (jiffies - PidSlot.prev_jiffies (slot_at st pid)) * 1000 / hz st /\
    (forall u, u <> uid -> cpu_of u st' = cpu_of u st) /\
    slot_at st' pid = PidSlot.mk (PidSlot.active (slot_at st pid)) uid jiffies.
Proof.
  intros Ho Ha Hu Hprev Hhz Hm Htr Hr.
  rewrite (do_entry_observes _ _ _ _ _ _ _ Ho).
  destruct Ho as (_ & Hp & Hread & Hj & _).
  assert (first_sight (slot_at st pid) uid = false) as Hf
    by (apply first_sight_false; auto).
  pose proof (read_proc_stat_range fs pid) as Hrange. rewrite Hread in Hrange.
  assert (Z.max 0 (jiffies - PidSlot.prev_jiffies (slot_at st pid))
          = jiffies - PidSlot.prev_jiffies (slot_at st pid)) as Hmax by lia.
  destruct (do_proc_tick_known_defined pid jiffies uid st) as [st' Hd];
    rewrite ?Hmax; auto; try lia; [unfold LLONG_MIN, LLONG_MAX in *; lia|].
  exists st'. split; [exact Hd|].
  destruct (do_proc_tick_known _ _ _ _ _ Hd Hf Hhz) as (Hs & Ho' & Hg & _).
  rewrite Hmax in Hg. repeat split; auto.
Qed.

End Monitor.

(** * The names and the stat files of /proc *)

(** ** Decimal numerals *)

Lemma of_uint_acc_value d : forall acc,
  Z.pos (Pos.of_uint_acc d acc) = uint_value d (Z.pos acc).
Proof.
  induction d; intros acc; cbn [Pos.of_uint_acc uint_value];
    try reflexivity; rewrite IHd; f_equal; lia.
Qed.

Lemma of_uint_value d : Z.of_N (Pos.of_uint d) = uint_value d 0.
Proof.
  induction d; cbn [Pos.of_uint uint_value Z.of_N]; try reflexivity;
    try exact IHd; apply of_uint_acc_value.
Qed.

Lemma to_uint_value n : uint_value (N.to_uint n) 0 = Z.of_N n.
Proof.
  rewrite <- of_uint_value. f_equal. apply DecimalN.Unsigned.of_to.
Qed.

Lemma to_uint_nonnil n : N.to_uint n <> Decimal.Nil.
Proof.
  destruct n as [|p]; [discriminate|]. apply DecimalPos.Unsigned.to_uint_nonnil.
Qed.

Lemma uint_value_ge d : forall acc, 0 <= acc -> acc <= uint_value d acc.
Proof.
  induction d; intros acc Ha; cbn [uint_value]; try lia;
    match goal with
    | |- _ <= uint_value _ ?a => specialize (IHd a); lia
    end.
Qed.

Lemma format_u_numeral n :
  format_u n = NilEmpty.string_of_uint (N.to_uint (Z.to_N n)).
Proof.
  unfold format_u, NilZero.string_of_uint.
  pose proof (to_uint_nonnil (Z.to_N n)).
  destruct (N.to_uint (Z.to_N n)); [contradiction | reflexivity ..].
Qed.

Lemma format_u_value n : 0 <= n -> uint_value (N.to_uint (Z.to_N n)) 0 = n.
Proof. intros Hn. rewrite to_uint_value. lia. Qed.

(** ** The names of /proc *)

Lemma scan_name_step c k s acc :
  isdigit c = true -> Z.of_nat (nat_of_ascii c) - 48 = k ->
  INT_MIN <= acc * 10 <= INT_MAX -> INT_MIN <= acc * 10 + k <= INT_MAX ->
  scan_name (String c s) acc = scan_name s (acc * 10 + k).
Proof.
  intros Hc Hk H1 H2. cbn [scan_name]. rewrite Hc, Hk.
  unfold int_mul, int_add. rewrite (as_int_in _ H1). cbn [bind].
  rewrite (as_int_in _ H2). reflexivity.
Qed.

Lemma scan_name_numeral d : forall acc,
  0 <= acc -> uint_value d acc <= INT_MAX ->
  scan_name (NilEmpty.string_of_uint d) acc = Ok (1, uint_value d acc).
Proof.
  induction d; intros acc Ha Hmax;
    cbn [NilEmpty.string_of_uint uint_value] in *; try reflexivity;
    match type of Hmax with
    | uint_value _ (_ * 10 + ?k) <= _ =>
        pose proof (uint_value_ge d (acc * 10 + k) ltac:(lia));
        rewrite (scan_name_step _ k)
          by (try reflexivity; unfold INT_MIN, INT_MAX in *; lia);
        apply IHd; lia
    end.
Qed.

(** X3.  The name of a directory of /proc is read back as its pid: the
    decimal form of a pid from 0 to [INT_MAX] scans to that pid as valid, so
    the entry of a process with a pid below [PID_MAX] whose stat file and
    owner can be read reaches the classification with that pid. *)
Theorem decimal_name_observed fs pid :
  0 < pid < PID_MAX ->
  0 <= read_proc_stat fs pid ->
  read_proc_uid fs pid <> UID_NONE ->
  scan_name (format_u pid) 0 = Ok (1, pid) /\
  observes fs (format_u pid) pid (read_proc_stat fs pid) (read_proc_uid fs pid).
Proof.
  intros Hp Hj Hu.
  assert (scan_name (format_u pid) 0 = Ok (1, pid)) as Hs.
  { rewrite format_u_numeral.
    rewrite scan_name_numeral; rewrite ?format_u_value; try lia; try reflexivity.
    unfold PID_MAX, INT_MAX in *. lia. }
  split; [exact Hs|]. unfold observes. repeat split; auto; lia.
Qed.

(** ** The stat file *)

Lemma append_cons x (a b : string) : (String x a ++ b = String x (a ++ b))%string.
Proof. reflexivity. Qed.

Lemma append_nil (b : string) : (EmptyString ++ b = b)%string.
Proof. reflexivity. Qed.

Lemma append_assoc3 (a b c : string) : ((a ++ b) ++ c = a ++ (b ++ c))%string.
Proof.
  induction a as [|x a IH]; [reflexivity|].
  rewrite !append_cons. f_equal. exact IH.
Qed.

Lemma has_char_app c a b :
  has_char c (a ++ b)%string = has_char c a || has_char c b.
Proof.
  induction a as [|x a IH]; [reflexivity|].
  rewrite append_cons. cbn [has_char]. rewrite IH. now rewrite orb_assoc.
Qed.

Lemma c_str_plain s : has_char "000"%char s = false -> c_str s = s.
Proof.
  induction s as [|c s IH]; cbn; [reflexivity|].
  intros H. apply orb_false_iff in H as [Hc Hs]. rewrite Hc. now rewrite IH.
Qed.

Lemma has_char_c_str c s : has_char c (c_str s) = true -> has_char c s = true.
Proof.
  induction s as [|a s IH]; cbn; [discriminate|].
  destruct (Ascii.eqb a "000"%char); cbn; [discriminate|].
  intros H. apply orb_true_iff in H as [H | H]; apply orb_true_iff; auto.
Qed.

Lemma read_line_whole n line more :
  has_char "010"%char line = false -> (String.length line < n)%nat ->
  read_line n (line ++ String "010"%char more) = (line ++ String "010"%char EmptyString)%string.
Proof.
  revert n. induction line as [|c line IH]; intros n Hnl Hlen;
    rewrite ?append_cons, ?append_nil; cbn [has_char String.length] in *.
  - destruct n as [|n]; [lia | reflexivity].
  - apply orb_false_iff in Hnl as [Hc Hl].
    destruct n as [|n]; [lia|]. cbn [read_line]. rewrite Hc.
    rewrite IH by (auto; lia). reflexivity.
Qed.

(** A line read up to a newline holds no character that is not before
    that newline. *)
Lemma has_char_read_line c n a b :
  Ascii.eqb "010"%char c = false ->
  has_char c (read_line n (a ++ b)) = true ->
  b = EmptyString \/ (exists b', b = String "010"%char b') ->
  has_char c a = true.
Proof.
  intros Hc. revert n. induction a as [|x a IH]; intros n H Hb;
    rewrite ?append_cons, ?append_nil in H; cbn [has_char].
  - exfalso. destruct Hb as [-> | [b' ->]]; destruct n as [|n];
      cbn [read_line has_char] in H; try discriminate H.
    rewrite Ascii.eqb_refl in H. cbn [has_char] in H. rewrite Hc in H. discriminate H.
  - destruct n as [|n]; cbn [read_line] in H; [discriminate H|].
    destruct (Ascii.eqb x "010"%char) eqn:Hx; cbn [has_char] in H.
    + rewrite orb_false_r in H. now rewrite H.
    + apply orb_true_iff in H as [H | H]; [now rewrite H|].
      rewrite (IH n H Hb). apply orb_true_r.
Qed.

Lemma after_last_none c s : has_char c s = false -> after_last c s = None.
Proof.
  induction s as [|a s IH]; cbn; [reflexivity|].
  intros H. apply orb_false_iff in H as [Ha Hs]. now rewrite IH, Ha.
Qed.

Lemma after_last_app c head tail :
  has_char c tail = false ->
  after_last c (head ++ String c tail) = Some tail.
Proof.
  intros Ht. induction head as [|a head IH];
    rewrite ?append_cons, ?append_nil; cbn [after_last].
  - rewrite after_last_none by exact Ht. now rewrite Ascii.eqb_refl.
  - now rewrite IH.
Qed.

Lemma digit_differs c k : isdigit c = false -> isdigit k = true -> Ascii.eqb k c = false.
Proof.
  intros Hc Hk. destruct (Ascii.eqb k c) eqn:E; [|reflexivity].
  apply Ascii.eqb_eq in E. congruence.
Qed.

Lemma numeral_chars c d :
  isdigit c = false -> has_char c (NilEmpty.string_of_uint d) = false.
Proof.
  intros Hc. induction d; cbn [NilEmpty.string_of_uint has_char]; try reflexivity;
    rewrite IHd, (digit_differs c _ Hc) by reflexivity; reflexivity.
Qed.

Lemma format_u_chars c n : isdigit c = false -> has_char c (format_u n) = false.
Proof. intros Hc. rewrite format_u_numeral. now apply numeral_chars. Qed.

Lemma format_d_chars c f :
  isdigit c = false -> Ascii.eqb "-"%char c = false -> has_char c (format_d f) = false.
Proof.
  intros Hc Hm. unfold format_d. destruct (f <? 0); cbn [has_char];
    rewrite ?Hm, format_u_chars by exact Hc; reflexivity.
Qed.

Lemma fields_chars c fields tail :
  isdigit c = false -> Ascii.eqb "-"%char c = false -> Ascii.eqb " "%char c = false ->
  has_char c (fold_right (fun f r => String " "%char (format_d f ++ r)) tail fields)
  = has_char c tail.
Proof.
  intros Hc Hm Hs. induction fields as [|f fields IH];
    cbn [fold_right has_char]; [reflexivity|].
  rewrite Hs, has_char_app, format_d_chars, IH by assumption. reflexivity.
Qed.

Lemma stat_line_chars c head state fields utime stime rest :
  isdigit c = false -> Ascii.eqb "-"%char c = false -> Ascii.eqb " "%char c = false ->
  Ascii.eqb ")"%char c = false ->
  has_char c (stat_line head state fields utime stime rest)
  = has_char c head || Ascii.eqb state c || has_char c rest.
Proof.
  intros Hc Hm Hs Hp. unfold stat_line. rewrite has_char_app. cbn [has_char].
  rewrite Hp, Hs, fields_chars by assumption. cbn [has_char].
  rewrite Hs, has_char_app. cbn [has_char].
  rewrite Hs, has_char_app, !format_u_chars by assumption. cbn [orb].
  now rewrite orb_assoc.
Qed.

Lemma fields_app fields tail x :
  (fold_right (fun f r => String " "%char (format_d f ++ r)) tail fields ++ x
   = fold_right (fun f r => String " "%char (format_d f ++ r)) (tail ++ x) fields)%string.
Proof.
  induction fields as [|f fields IH]; cbn [fold_right]; [reflexivity|].
  now rewrite append_cons, append_assoc3, IH.
Qed.

Lemma stat_line_app head state fields utime stime rest x :
  (stat_line head state fields utime stime rest ++ x
   = stat_line head state fields utime stime (rest ++ x))%string.
Proof.
  unfold stat_line. rewrite append_assoc3, !append_cons, fields_app.
  now rewrite !append_cons, !append_assoc3, !append_cons, !append_assoc3.
Qed.

Lemma digits_step c s acc :
  isdigit c = true ->
  digits (String c s) acc = digits s (acc * 10 + (Z.of_nat (nat_of_ascii c) - 48)).
Proof. intros Hc. cbn [digits]. now rewrite Hc. Qed.

Lemma digits_numeral d : forall r acc,
  starts_with_digit r = false ->
  digits (NilEmpty.string_of_uint d ++ r) acc = (uint_value d acc, r).
Proof.
  induction d; intros r acc Hr;
    cbn [NilEmpty.string_of_uint uint_value];
    rewrite ?append_cons, ?append_nil;
    try (rewrite digits_step by reflexivity; now apply IHd).
  destruct r as [|c r]; cbn [digits starts_with_digit] in *; [reflexivity | now rewrite Hr].
Qed.

Lemma subject_unsigned d r :
  d <> Decimal.Nil -> starts_with_digit r = false ->
  subject (String " "%char (NilEmpty.string_of_uint d ++ r))
  = Some (false, uint_value d 0, r).
Proof.
  intros Hd Hr. unfold subject.
  destruct d; [contradiction | ..];
    cbn [NilEmpty.string_of_uint]; rewrite append_cons;
    cbn [skip_spaces];
    change (isspace " "%char) with true; cbv iota;
    cbn [skip_spaces]; cbv beta iota;
    match goal with
    | |- context [isspace ?c] => change (isspace c) with false
    end; cbv iota; cbn [fst snd];
    match goal with
    | |- context [isdigit ?c] => change (isdigit c) with true
    end; cbv iota;
    rewrite digits_step by reflexivity;
    rewrite digits_numeral by exact Hr; reflexivity.
Qed.

Lemma subject_negative d r :
  d <> Decimal.Nil -> starts_with_digit r = false ->
  subject (String " "%char (String "-"%char (NilEmpty.string_of_uint d ++ r)))
  = Some (true, uint_value d 0, r).
Proof.
  intros Hd Hr. unfold subject.
  destruct d; [contradiction | ..];
    cbn [NilEmpty.string_of_uint]; rewrite append_cons;
    cbn [skip_spaces];
    change (isspace " "%char) with true; cbv iota;
    cbn [skip_spaces]; change (isspace "-"%char) with false; cbv iota;
    cbn [fst snd];
    match goal with
    | |- context [isdigit ?c] => change (isdigit c) with true
    end; cbv iota;
    rewrite digits_step by reflexivity;
    rewrite digits_numeral by exact Hr; reflexivity.
Qed.

Lemma strtoul_field n r :
  0 <= n <= ULONG_MAX -> starts_with_digit r = false ->
  strtoul (String " "%char (format_u n ++ r)) = Some (n, r).
Proof.
  intros Hn Hr. unfold strtoul. rewrite format_u_numeral.
  rewrite subject_unsigned by (auto using to_uint_nonnil).
  rewrite format_u_value by lia.
  replace (n >? ULONG_MAX) with false
    by (symmetry; rewrite Z.gtb_ltb; apply Z.ltb_ge; lia).
  reflexivity.
Qed.

Lemma strtol_field f r :
  starts_with_digit r = false ->
  exists v, strtol (String " "%char (format_d f ++ r)) = Some (v, r).
Proof.
  intros Hr. unfold strtol, format_d. destruct (f <? 0).
  - rewrite append_cons, format_u_numeral.
    rewrite subject_negative by (auto using to_uint_nonnil). eauto.
  - rewrite format_u_numeral.
    rewrite subject_unsigned by (auto using to_uint_nonnil). eauto.
Qed.

Lemma fields_start fields tail :
  starts_with_digit tail = false ->
  starts_with_digit
    (fold_right (fun f r => String " "%char (format_d f ++ r)) tail fields) = false.
Proof. intros Ht. destruct fields; [exact Ht | reflexivity]. Qed.

Lemma skip_fields_line fields tail :
  starts_with_digit tail = false ->
  skip_fields (length fields)
    (fold_right (fun f r => String " "%char (format_d f ++ r)) tail fields)
  = Some tail.
Proof.
  intros Ht. induction fields as [|f fields IH]; [reflexivity|].
  cbn [length fold_right skip_fields].
  destruct (strtol_field f _ (fields_start fields tail Ht)) as [v ->]. exact IH.
Qed.

Lemma stat_fields_line head state fields utime stime rest :
  state_char state = true ->
  length fields = 10%nat ->
  0 <= utime <= ULONG_MAX -> 0 <= stime <= ULONG_MAX ->
  has_char ")"%char rest = false -> starts_with_digit rest = false ->
  stat_fields (stat_line head state fields utime stime rest) = Some (utime, stime).
Proof.
  intros Hst Hlen Hu Hs Hp Hd. unfold state_char in Hst.
  repeat (apply andb_prop in Hst as [Hst ?]).
  repeat match goal with
         | H : negb _ = true |- _ => apply negb_true_iff in H
         end.
  unfold stat_fields, stat_line.
  rewrite after_last_app.
  - cbn [skip_blanks]. rewrite Ascii.eqb_refl. cbn [orb skip_blanks].
    rewrite Hst. match goal with H : Ascii.eqb state "009"%char = false |- _ => rewrite H end.
    cbn [orb]. rewrite <- Hlen, skip_fields_line by reflexivity.
    rewrite strtoul_field by (auto; reflexivity).
    rewrite strtoul_field by auto. reflexivity.
  - cbn [has_char]. rewrite fields_chars by reflexivity. cbn [has_char].
    rewrite !has_char_app. cbn [has_char]. rewrite has_char_app.
    rewrite !format_u_chars by reflexivity. rewrite Hp.
    match goal with H : Ascii.eqb state ")"%char = false |- _ => rewrite H end.
    reflexivity.
Qed.

(** X1.  [read_proc_stat] returns the sum of fields 14 and 15 of a
    well-formed stat line whose command name holds no newline and no NUL:
    the text before the last closing parenthesis may contain spaces and
    parentheses, fields 4 to 13 may be negative, and the line may go on
    after field 15.  The line has to fit the 4096-byte buffer with its
    newline. *)
Theorem read_proc_stat_of_line names stat_file owner pid
    head state fields utime stime rest more :
  stat_file pid =
    Some (stat_line head state fields utime stime rest ++ String "010"%char more)%string ->
  plain head = true -> plain rest = true ->
  has_char ")"%char rest = false -> starts_with_digit rest = false ->
  state_char state = true ->
  length fields = 10%nat ->
  0 <= utime <= ULONG_MAX -> 0 <= stime <= ULONG_MAX ->
  (String.length (stat_line head state fields utime stime rest) < 4095)%nat ->
  stat_times (procfs_of names stat_file owner) pid = Some (utime, stime) /\
  read_proc_stat (procfs_of names stat_file owner) pid = to_llong (ulong_add utime stime) /\
  (utime + stime <= LLONG_MAX ->
   read_proc_stat (procfs_of names stat_file owner) pid = utime + stime).
Proof.
  intros Hfile Hhead Hrest Hp Hd Hst Hlen Hu Hs Hfit.
  unfold plain in Hhead, Hrest.
  apply andb_prop in Hhead as [Hh0 Hhn]. apply andb_prop in Hrest as [Hr0 Hrn].
  apply negb_true_iff in Hh0, Hhn, Hr0, Hrn.
  pose proof Hst as Hst'. unfold state_char in Hst'.
  repeat (apply andb_prop in Hst' as [Hst' ?]).
  repeat match goal with
         | H : negb _ = true |- _ => apply negb_true_iff in H
         end.
  set (line := stat_line head state fields utime stime rest) in *.
  assert (has_char "010"%char line = false) as Hline_n.
  { unfold line. rewrite stat_line_chars by reflexivity.
    rewrite Hhn, Hrn. cbn [orb]. rewrite orb_false_r. assumption. }
  assert (has_char "000"%char line = false) as Hline_0.
  { unfold line. rewrite stat_line_chars by reflexivity.
    rewrite Hh0, Hr0. cbn [orb]. rewrite orb_false_r. assumption. }
  assert (stat_times (procfs_of names stat_file owner) pid = Some (utime, stime)) as Hparsed.
  { cbn [procfs_of stat_times]. rewrite Hfile. unfold stat_of_file, fgets.
    destruct (line ++ String "010"%char more)%string as [|c0 s0] eqn:Hcontent.
    - destruct line; discriminate Hcontent.
    - rewrite <- Hcontent. change (4096 - 1)%nat with 4095%nat.
      rewrite read_line_whole by assumption.
      rewrite c_str_plain
        by (rewrite has_char_app, Hline_0; reflexivity).
      unfold line. rewrite stat_line_app.
      apply stat_fields_line; auto.
      + rewrite has_char_app, Hp. reflexivity.
      + destruct rest; [reflexivity | exact Hd]. }
  split; [exact Hparsed|]. unfold read_proc_stat. rewrite Hparsed.
  split; [reflexivity|]. intros Hsum.
  unfold to_llong, ulong_add. rewrite Z.mod_small by (unfold ULONG_MODULUS, LLONG_MAX in *; lia).
  apply Z.leb_le in Hsum. now rewrite Hsum.
Qed.

(** X2.  Without a closing parenthesis on its first line the stat file
    gives no counter: when the file cannot be opened, is empty, or has no
    [)] before its first newline (as when the command name itself holds a
    newline), [read_proc_stat] returns -1. *)
Theorem read_proc_stat_needs_paren names stat_file owner pid :
  stat_file pid = None \/
  (exists a b, stat_file pid = Some (a ++ b)%string /\
               has_char ")"%char a = false /\
               (b = EmptyString \/ exists b', b = String "010"%char b')) ->
  read_proc_stat (procfs_of names stat_file owner) pid = -1.
Proof.
  intros H. unfold read_proc_stat. cbn [procfs_of stat_times].
  destruct H as [-> | (a & b & -> & Ha & Hb)]; [reflexivity|].
  unfold stat_of_file, fgets.
  destruct (a ++ b)%string as [|c0 s0] eqn:Hcontent; [reflexivity|].
  rewrite <- Hcontent. unfold stat_fields.
  rewrite after_last_none; [reflexivity|].
  destruct (has_char ")"%char (c_str (read_line (4096 - 1) (a ++ b)))) eqn:E;
    [|reflexivity].
  apply has_char_c_str in E. apply has_char_read_line in E; auto. congruence.
Qed.

(** * The comparison and the report *)

(** X11.  [cmp_cpu_desc] is a comparison [qsort] can rely on: it returns
    -1, 0 or 1, swapping the arguments negates the result, the result is 0
    exactly for equal times and negative exactly when the first entry has
    more time, and "not after" is transitive.  It compares and never
    subtracts, so this holds for all [long long] times. *)
Theorem cmp_cpu_desc_consistent a b c :
  (cmp_cpu_desc a b = -1 \/ cmp_cpu_desc a b = 0 \/ cmp_cpu_desc a b = 1) /\
  cmp_cpu_desc b a = - cmp_cpu_desc a b /\
  (cmp_cpu_desc a b = 0 <-> UserEntry.cpu_ms a = UserEntry.cpu_ms b) /\
  (cmp_cpu_desc a b < 0 <-> UserEntry.cpu_ms b < UserEntry.cpu_ms a) /\
  (cmp_cpu_desc a b <= 0 -> cmp_cpu_desc b c <= 0 -> cmp_cpu_desc a c <= 0).
Proof.
  unfold cmp_cpu_desc.
  destruct (UserEntry.cpu_ms b >? UserEntry.cpu_ms a) eqn:E1;
    destruct (UserEntry.cpu_ms b <? UserEntry.cpu_ms a) eqn:E2;
    destruct (UserEntry.cpu_ms a >? UserEntry.cpu_ms b) eqn:E3;
    destruct (UserEntry.cpu_ms a <? UserEntry.cpu_ms b) eqn:E4;
    destruct (UserEntry.cpu_ms c >? UserEntry.cpu_ms b) eqn:E5;
    destruct (UserEntry.cpu_ms c <? UserEntry.cpu_ms b) eqn:E6;
    destruct (UserEntry.cpu_ms c >? UserEntry.cpu_ms a) eqn:E7;
    destruct (UserEntry.cpu_ms c <? UserEntry.cpu_ms a) eqn:E8;
    lia.
Qed.

Lemma print_rows_filter tbl : forall rank,
  print_rows tbl rank =
  print_rows (List.filter (fun u => 0 <? UserEntry.cpu_ms u) tbl) rank.
Proof.
  induction tbl as [|u tl IH]; intros rank; cbn [print_rows List.filter]; [reflexivity|].
  destruct (UserEntry.cpu_ms u <=? 0) eqn:E.
  - apply Z.leb_le in E.
    replace (0 <? UserEntry.cpu_ms u) with false by (symmetry; apply Z.ltb_ge; lia).
    apply IH.
  - apply Z.leb_gt in E.
    replace (0 <? UserEntry.cpu_ms u) with true by (symmetry; apply Z.ltb_lt; lia).
    cbn [print_rows]. apply Z.leb_gt in E. rewrite E. now rewrite IH.
Qed.

Lemma sorted_filter (f : UserEntry.t -> bool) l :
  StronglySorted (fun a b => cmp_cpu_desc a b <= 0) l ->
  StronglySorted (fun a b => cmp_cpu_desc a b <= 0) (List.filter f l).
Proof.
  induction 1 as [|a l Hs IH Hall]; cbn; [constructor|].
  destruct (f a); [|exact IH]. constructor; [exact IH|].
  rewrite List.Forall_forall in *. intros x Hx.
  apply List.filter_In in Hx as [Hx _]. auto.
Qed.

(** Entries with pairwise distinct times have one sorted arrangement. *)
Lemma sorted_unique l1 : forall l2,
  List.NoDup (map UserEntry.cpu_ms l1) ->
  Permutation l1 l2 ->
  StronglySorted (fun a b => cmp_cpu_desc a b <= 0) l1 ->
  StronglySorted (fun a b => cmp_cpu_desc a b <= 0) l2 ->
  l1 = l2.
Proof.
  induction l1 as [|a l1 IH]; intros l2 Hnd Hp H1 H2.
  - now apply Permutation_nil in Hp.
  - destruct l2 as [|b l2]; [apply Permutation_sym, Permutation_nil in Hp; discriminate|].
    inversion H1 as [|? ? Hs1 Hall1]; subst. inversion H2 as [|? ? Hs2 Hall2]; subst.
    cbn in Hnd. apply List.NoDup_cons_iff in Hnd as [Hnotin Hnd].
    rewrite List.Forall_forall in Hall1, Hall2.
    assert (a = b) as <-.
    { assert (In a (b :: l2)) as Ha by (apply (Permutation_in _ Hp); now left).
      assert (In b (a :: l1)) as Hb
        by (apply (Permutation_in _ (Permutation_sym Hp)); now left).
      destruct Ha as [-> | Ha]; [reflexivity|].
      destruct Hb as [-> | Hb]; [reflexivity|].
      exfalso. apply Hnotin.
      apply Hall2, cmp_cpu_desc_le in Ha. pose proof (Hall1 _ Hb) as Hb'.
      apply cmp_cpu_desc_le in Hb'.
      replace (UserEntry.cpu_ms a) with (UserEntry.cpu_ms b) by lia.
      now apply List.in_map. }
    f_equal. apply IH; auto. now apply Permutation_cons_inv in Hp.
Qed.

(** X13.  The report does not depend on the sorting routine when no two
    owners have the same positive time: any two functions that meet the
    contract of [qsort] give the same rows.  (With equal positive times the
    order of those rows is left to [qsort].) *)
Theorem report_independent_of_qsort (qsort1 qsort2 : sorter) st :
  qsort_contract qsort1 -> qsort_contract qsort2 ->
  List.NoDup (map UserEntry.cpu_ms
                (List.filter (fun u => 0 <? UserEntry.cpu_ms u) (user_table st))) ->
  report qsort1 st = report qsort2 st.
Proof.
  intros H1 H2 Hnd. unfold report.
  destruct (H1 (user_table st)) as [Hp1 Hs1].
  destruct (H2 (user_table st)) as [Hp2 Hs2].
  rewrite (print_rows_filter (qsort1 _ _)), (print_rows_filter (qsort2 _ _)).
  f_equal. apply sorted_unique.
  - eapply Permutation_NoDup; [|exact Hnd].
    apply Permutation_map, filter_perm. exact Hp1.
  - apply filter_perm. now rewrite <- Hp1, <- Hp2.
  - now apply sorted_filter.
  - now apply sorted_filter.
Qed.

(** * Examples on the reference environment *)

Lemma insertion_sort_contract : qsort_contract insertion_sort.
Proof.
  assert (forall x l,
            StronglySorted (fun a b => cmp_cpu_desc a b <= 0) l ->
            StronglySorted (fun a b => cmp_cpu_desc a b <= 0)
                           (insert_sorted cmp_cpu_desc x l) /\
            Permutation (x :: l) (insert_sorted cmp_cpu_desc x l)) as Hins.
  { intros x l Hs. induction Hs as [|y tl Hs IH Hall]; cbn.
    - split; [repeat constructor | reflexivity].
    - destruct (cmp_cpu_desc x y <=? 0) eqn:E.
      + apply Z.leb_le in E. split; [|reflexivity].
        constructor; [now constructor|]. constructor; [exact E|].
        apply cmp_cpu_desc_le in E.
        eapply List.Forall_impl; [|exact Hall].
        intros z Hz. cbn in Hz. apply cmp_cpu_desc_le in Hz. apply cmp_cpu_desc_le. lia.
      + apply Z.leb_gt in E. destruct IH as [IHs IHp]. split.
        * constructor; [exact IHs|].
          apply (Permutation_Forall IHp). constructor; [|exact Hall].
          apply cmp_cpu_desc_le.
          assert (~ UserEntry.cpu_ms y <= UserEntry.cpu_ms x)
            by (intros Hc; apply cmp_cpu_desc_le in Hc; lia).
          lia.
        * rewrite perm_swap. now constructor. }
  intros tbl. induction tbl as [|x tl [IHp IHs]]; cbn.
  - split; [reflexivity | constructor].
  - destruct (Hins x _ IHs) as [Hs Hp]. split; [|exact Hs].
    etransitivity; [|exact Hp]. now constructor.
Qed.

Ltac run := vm_compute; try reflexivity; try discriminate; try lia.

Lemma demo_watched : watched no_passwd 7 1000 demo_base [demo_tick1; demo_tick2].
Proof.
  unfold watched, followed, sees, observes. repeat split; run.
Defined.

Lemma demo_idle_watched : watched no_passwd 7 1000 demo_base [demo_idle; demo_idle].
Proof.
  unfold watched, followed, sees, observes. repeat split; run.
Defined.

Lemma slow_watched : watched no_passwd 7 1000 slow_base [slow_tick1; slow_tick2].
Proof.
  unfold watched, followed, sees, observes. repeat split; run.
Defined.

(** C1: the run at 100 ticks per second gains user 1000 the 300 and 250
    milliseconds of its two deltas, 550 in all. *)
Lemma no_double_count_witness :
  attributed 1000 [demo_base; demo_tick1; demo_tick2] = 550 /\
  (attributed 1000 (demo_base :: [demo_tick1; demo_tick2]) =
     per_tick_ms (hz (before demo_base)) (counter_of 7 demo_base)
                 (map (counter_of 7) [demo_tick1; demo_tick2]) /\
   attributed 1000 (demo_base :: [demo_tick1; demo_tick2]) <=
     (List.last (map (counter_of 7) [demo_tick1; demo_tick2]) (counter_of 7 demo_base)
      - counter_of 7 demo_base) * 1000 / hz (before demo_base) /\
   ((hz (before demo_base) | 1000) ->
    attributed 1000 (demo_base :: [demo_tick1; demo_tick2]) =
     (List.last (map (counter_of 7) [demo_tick1; demo_tick2]) (counter_of 7 demo_base)
      - counter_of 7 demo_base) * 1000 / hz (before demo_base))).
Proof.
  split; [reflexivity|].
  refine (no_double_count no_passwd 7 1000 demo_base [demo_tick1; demo_tick2]
            demo_watched _ _ _).
  - reflexivity.
  - cbn. repeat split; run.
  - repeat constructor.
Defined.

(** C1 as stated fails at 1024 ticks per second: every pass below is a whole
    [do_sample], the counters of process 7 are 100, 101 and 102, its owner
    gains 0 milliseconds, and [(102 - 100) * 1000 / 1024] is 1. *)
Lemma telescoped_total_fails :
  do_sample no_passwd 1 (view slow_base) slow_start = Ok slow_recorded /\
  do_sample no_passwd 0 (view slow_tick1) slow_recorded = Ok slow_after1 /\
  do_sample no_passwd 0 (view slow_tick2) slow_after1 = Ok slow_after2 /\
  watched no_passwd 7 1000 slow_base [slow_tick1; slow_tick2] /\
  map (counter_of 7) [slow_base; slow_tick1; slow_tick2] = [100; 101; 102] /\
  Forall (fun s => can_track 1000 (before s) = true) [slow_tick1; slow_tick2] /\
  attributed 1000 [slow_base; slow_tick1; slow_tick2] = 0 /\
  (102 - 100) * 1000 / hz slow_start = 1.
Proof.
  repeat split; try exact slow_watched; run.
  repeat constructor.
Qed.

(** C3: process 7 seen twice more with the 100 jiffies of its baseline. *)
Lemma baseline_exclusion_witness :
  attributed 1000 (demo_base :: [demo_idle; demo_idle]) = 0 /\
  user_table (after demo_base) = user_table (before demo_base) /\
  Forall (fun s => after s = before s) [demo_idle; demo_idle].
Proof.
  refine (baseline_exclusion no_passwd 7 1000 demo_base [demo_idle; demo_idle]
            demo_idle_watched _).
  repeat constructor.
Defined.

(** C2: pid 7, recorded for user 1000 with 100 jiffies, now belongs to user
    2000 and has 50 jiffies: user 2000 gains 500 ms. *)
Lemma pid_reuse_other_owner_witness :
  exists st',
    do_entry no_passwd 0 (proc_with "7" 7 30 20 2000) "7" demo_recorded = Ok st' /\
    cpu_of 2000 st' = cpu_of 2000 demo_recorded + 50 * 1000 / hz demo_recorded /\
    cpu_of 1000 st' = cpu_of 1000 demo_recorded /\
    (forall u, u <> 2000 -> cpu_of u st' = cpu_of u demo_recorded) /\
    slot_at st' 7 = PidSlot.mk 1 2000 50.
Proof.
  refine (pid_reuse_other_owner no_passwd (proc_with "7"%string 7 30 20 2000) "7"%string
            7 1000 2000 100 50 demo_recorded _ _ _ _ _ _ _ _ _ _);
    unfold observes; repeat split; run.
Defined.

(** C2 as stated fails when the user table is full: 4096 owners are known,
    pid 7 is recorded for user 1000 with 100 jiffies, and a regular sample
    reads it with owner 5000, who has no entry, and 50 jiffies.  The slot is
    overwritten, and user 5000 gains nothing instead of 500 ms. *)
Lemma full_table_reuse_gains_nothing :
  observes (proc_with "7" 7 30 20 5000) "7" 7 50 5000 /\
  slot_at full_recorded 7 = PidSlot.mk 1 1000 100 /\
  5000 <> 1000 /\ 50 < 100 /\
  user_count full_recorded = MAX_USERS /\
  can_track 5000 full_recorded = false /\
  50 * 1000 / hz full_recorded = 500 /\
  exists st',
    do_entry no_passwd 0 (proc_with "7" 7 30 20 5000) "7" full_recorded = Ok st' /\
    slot_at st' 7 = PidSlot.mk 1 5000 50 /\
    user_table st' = user_table full_recorded /\
    cpu_of 5000 full_recorded = 0 /\
    cpu_of 5000 st' = 0 /\
    cpu_of 5000 st' <> cpu_of 5000 full_recorded + 50 * 1000 / hz full_recorded.
Proof.
  unfold observes. repeat split; run.
  exists (store_slot 7 (PidSlot.mk 1 5000 50) full_recorded).
  repeat split; run.
Qed.

(** C5: a baseline pass that meets the recorded process 7 again. *)
Lemma baseline_known_untouched_witness :
  do_entry no_passwd 1 (proc_with "7" 7 120 80 1000) "7" demo_recorded = Ok demo_recorded.
Proof.
  refine (baseline_known_untouched no_passwd 1 (proc_with "7"%string 7 120 80 1000) "7"%string
            7 1000 200 demo_recorded _ _ _ _);
    unfold observes; repeat split; run.
Defined.

(** C5 as stated fails: the baseline pass records process 7 of user 1000
    with 100 jiffies; a second baseline pass reads it with 200 jiffies and
    the same owner, and the slot still holds 100. *)
Lemma second_baseline_keeps_counter :
  do_sample no_passwd 1 (proc_with "7" 7 60 40 1000) demo_start = Ok demo_recorded /\
  observes (proc_with "7" 7 120 80 1000) "7" 7 200 1000 /\
  slot_at demo_recorded 7 = PidSlot.mk 1 1000 100 /\
  exists st',
    do_sample no_passwd 1 (proc_with "7" 7 120 80 1000) demo_recorded = Ok st' /\
    PidSlot.prev_jiffies (slot_at st' 7) = 100 /\
    PidSlot.prev_jiffies (slot_at st' 7) <> 200.
Proof.
  unfold observes. repeat split; run.
  exists demo_recorded. repeat split; run.
Qed.

(** C6: process 7, recorded with 100 jiffies, read with 50 under its owner. *)
Lemma negative_delta_guard_witness :
  exists st',
    do_entry no_passwd 0 (proc_with "7" 7 30 20 1000) "7" demo_recorded = Ok st' /\
    user_table st' = user_table demo_recorded /\
    (forall u, cpu_of u st' = cpu_of u demo_recorded) /\
    slot_at st' 7 = PidSlot.mk (PidSlot.active (slot_at demo_recorded 7)) 1000 50.
Proof.
  refine (negative_delta_guard no_passwd (proc_with "7"%string 7 30 20 1000) "7"%string
            7 1000 50 demo_recorded _ _ _ _ _);
    unfold observes; repeat split; run.
Defined.

(** C10: the same reading taken as a new process of the same owner: 50
    jiffies would be 500 ms, and none is given. *)
Lemma same_owner_reuse_clamped_witness :
  (50 < PidSlot.prev_jiffies (slot_at demo_recorded 7) ->
   PidSlot.prev_jiffies (slot_at demo_recorded 7) <= LLONG_MAX ->
   exists st',
     do_entry no_passwd 0 (proc_with "7" 7 30 20 1000) "7" demo_recorded = Ok st' /\
     cpu_of 1000 st' = cpu_of 1000 demo_recorded /\
     (0 < 50 * 1000 / hz demo_recorded ->
      cpu_of 1000 st' <> cpu_of 1000 demo_recorded + 50 * 1000 / hz demo_recorded) /\
     slot_at st' 7 = PidSlot.mk (PidSlot.active (slot_at demo_recorded 7)) 1000 50) /\
  (forall st',
     do_entry no_passwd 0 (proc_with "7" 7 30 20 1000) "7" demo_recorded = Ok st' ->
     cpu_of 1000 st' - cpu_of 1000 demo_recorded <=
     Z.max 0 (50 - PidSlot.prev_jiffies (slot_at demo_recorded 7)) * 1000 / hz demo_recorded).
Proof.
  refine (same_owner_reuse_clamped no_passwd (proc_with "7"%string 7 30 20 1000) "7"%string
            7 1000 50 demo_recorded _ _ _ _);
    unfold observes; repeat split; run.
Defined.

(** C4: a regular sample that credits user 1000. *)
Lemma cpu_ms_monotone_witness :
  (forall (i : nat) u,
     user_table demo_after1 !! i = Some u ->
     exists u', user_table demo_after2 !! i = Some u' /\
                UserEntry.uid u' = UserEntry.uid u /\
                UserEntry.cpu_ms u <= UserEntry.cpu_ms u') /\
  (forall uid, cpu_of uid demo_after1 <= cpu_of uid demo_after2) /\
  (forall n proc k k' st'' uid,
     sample_loop no_passwd n proc k demo_after2 = Ok (k', st'') ->
     cpu_of uid demo_after1 <= cpu_of uid st'').
Proof.
  refine (cpu_ms_monotone no_passwd 0 (proc_with "7"%string 7 90 65 1000)
            demo_after1 demo_after2 _ _); run.
Defined.

(** C9: names that are skipped, and one that is not. *)
Lemma invalid_entries_skipped_witness :
  do_entry no_passwd 0 (proc_with "70000" 70000 1 1 1000) "self" demo_recorded = Ok demo_recorded /\
  do_entry no_passwd 0 (proc_with "70000" 70000 1 1 1000) "70000" demo_recorded = Ok demo_recorded /\
  do_entry no_passwd 0 (proc_with "0" 0 1 1 1000) "0" demo_recorded = Ok demo_recorded /\
  do_entry no_passwd 0 (proc_with "65536" 65536 1 1 1000) "65536" demo_recorded = Ok demo_recorded /\
  do_entry no_passwd 0 (proc_with "12a" 12 1 1 1000) "12a" demo_recorded = Ok demo_recorded /\
  do_entry no_passwd 0 (proc_with "65535" 65535 1 1 1000) "65535" demo_start =
    Ok (set_users [UserEntry.mk 1000 20 "1000"]
          (store_slot 65535 (PidSlot.mk 1 1000 2) demo_start)).
Proof.
  refine (conj _ (conj _ (conj _ (conj _ (conj _ _))))).
  - apply (proj1 (invalid_entries_skipped no_passwd 0 _ "self"%string demo_recorded) 0 0);
      [reflexivity | left; reflexivity].
  - apply (proj1 (invalid_entries_skipped no_passwd 0 _ "70000"%string demo_recorded) 1 70000);
      [reflexivity | right; right; unfold PID_MAX; lia].
  - apply (proj1 (invalid_entries_skipped no_passwd 0 _ "0"%string demo_recorded) 1 0);
      [reflexivity | right; left; lia].
  - apply (proj1 (invalid_entries_skipped no_passwd 0 _ "65536"%string demo_recorded) 1 65536);
      [reflexivity | right; right; unfold PID_MAX; lia].
  - apply (proj1 (invalid_entries_skipped no_passwd 0 _ "12a"%string demo_recorded) 0 12);
      [reflexivity | left; reflexivity].
  - vm_compute. reflexivity.
Defined.

(** C7: the report for the accumulators A: 1500, B: 0, C: 3200. *)
Lemma report_ranked_witness :
  report insertion_sort
    (set_users [UserEntry.mk 1 1500 "A"; UserEntry.mk 2 0 "B"; UserEntry.mk 3 3200 "C"]
               demo_start)
  = [mkRow 1 "C" 3200; mkRow 2 "A" 1500].
Proof.
  refine (proj2 (proj2 (proj2 (proj2
            (report_ranked insertion_sort
               (set_users [UserEntry.mk 1 1500 "A"%string; UserEntry.mk 2 0 "B"%string;
                           UserEntry.mk 3 3200 "C"%string] demo_start)
               insertion_sort_contract)))) 1 2 3 _).
  reflexivity.
Defined.

(** C8: no argument, too many, zero, a negative number and a word are
    refused without sampling; 3 is accepted and gives four passes. *)
Lemma usage_errors_witness :
  (exists msg, main no_passwd insertion_sort ["monitor"%string] 100 (fun _ => empty_proc)
               = Ok (mkOutcome 1 0 msg [])) /\
  (exists msg, main no_passwd insertion_sort ["monitor"; "0"]%string 100 (fun _ => empty_proc)
               = Ok (mkOutcome 1 0 msg [])) /\
  (exists msg, main no_passwd insertion_sort ["monitor"; "-5"]%string 100 (fun _ => empty_proc)
               = Ok (mkOutcome 1 0 msg [])) /\
  (exists msg, main no_passwd insertion_sort ["monitor"; "abc"]%string 100 (fun _ => empty_proc)
               = Ok (mkOutcome 1 0 msg [])) /\
  main no_passwd insertion_sort ["monitor"; "3"]%string 100 (fun _ => empty_proc)
  = Ok (mkOutcome 0 4 [] []).
Proof.
  refine (conj _ (conj _ (conj _ (conj _ _)))).
  - apply (proj1 (usage_errors no_passwd insertion_sort _ 100 _)). cbn. lia.
  - apply (proj1 (proj2 (usage_errors no_passwd insertion_sort _ 100 _))
             "monitor"%string "0"%string 0); [reflexivity | reflexivity | lia].
  - apply (proj1 (proj2 (usage_errors no_passwd insertion_sort _ 100 _))
             "monitor"%string "-5"%string (-5)); [reflexivity | reflexivity | lia].
  - apply (proj1 (proj2 (usage_errors no_passwd insertion_sort _ 100 _))
             "monitor"%string "abc"%string 0); [reflexivity | reflexivity | lia].
  - rewrite (proj1 (proj1 (proj2 (proj2 (usage_errors no_passwd insertion_sort
                 ["monitor"; "3"]%string 100 (fun _ => empty_proc))))
               "monitor"%string "3"%string 3 eq_refl eq_refl eq_refl)).
    reflexivity.
Defined.

(** C8 as stated fails: [5abc] is not a positive integer, and [main] takes it
    for a duration of 5 seconds, makes six passes and returns 0. *)
Lemma trailing_text_accepted :
  positive_integer_text "5abc" = false /\
  main no_passwd insertion_sort ["./monitor.exe"; "5abc"]%string 100 (fun _ => empty_proc)
  = Ok (mkOutcome 0 6 [] []).
Proof.
  split; reflexivity.
Qed.

(** * Examples for the further properties *)

Ltac settle :=
  first [ reflexivity
        | unfold ULONG_MAX, LLONG_MAX, LLONG_MIN, MAX_USERS, PID_MAX; lia
        | run ].

Lemma reverse_insertion_sort_contract : qsort_contract reverse_insertion_sort.
Proof.
  intros tbl. unfold reverse_insertion_sort.
  destruct (insertion_sort_contract (rev tbl)) as [Hp Hs]. split; [|exact Hs].
  etransitivity; [apply Permutation_rev | exact Hp].
Qed.

Lemma demo_start_slots_ok : slots_ok demo_start.
Proof. intros pid. left. unfold slot_at. cbn. now rewrite lookup_empty. Qed.

(** X1: the line of process 1234 is
    [1234 (my (weird) proc) S 1 1234 1234 0 -1 4194304 100 0 0 0 57 43 0 0 20 0 1 0 100 1000 10]
    and gives 57 + 43 jiffies. *)
Lemma read_proc_stat_of_line_witness :
  stat_times (procfs_of None weird_files (fun _ => None)) 1234 = Some (57, 43) /\
  read_proc_stat (procfs_of None weird_files (fun _ => None)) 1234
    = to_llong (ulong_add 57 43) /\
  (57 + 43 <= LLONG_MAX ->
   read_proc_stat (procfs_of None weird_files (fun _ => None)) 1234 = 57 + 43).
Proof.
  refine (read_proc_stat_of_line None weird_files (fun _ => None) 1234
            weird_head "S"%char weird_fields 57 43 weird_rest EmptyString
            _ _ _ _ _ _ _ _ _ _); settle.
Defined.

(** X2: the first line of the stat file of process 12 ends inside the
    command name. *)
Lemma read_proc_stat_needs_paren_witness :
  read_proc_stat (procfs_of None broken_files (fun _ => None)) 12 = -1.
Proof.
  refine (read_proc_stat_needs_paren None broken_files (fun _ => None) 12 _).
  right. exists "12 (two"%string.
  exists (String "010"%char "lines) S 1 12 12 0 -1 0 0 0 0 0 5 6 0"%string).
  split; [reflexivity|]. split; [reflexivity|]. right. eauto.
Defined.

(** X3: the directory [7]. *)
Lemma decimal_name_observed_witness :
  scan_name (format_u 7) 0 = Ok (1, 7) /\
  observes (proc_with "7" 7 60 40 1000) (format_u 7) 7
           (read_proc_stat (proc_with "7" 7 60 40 1000) 7)
           (read_proc_uid (proc_with "7" 7 60 40 1000) 7).
Proof.
  refine (decimal_name_observed (proc_with "7"%string 7 60 40 1000) 7 _ _ _); settle.
Defined.


(** X5: a baseline pass over a state that already has a user. *)
Lemma baseline_credits_nobody_witness :
  (forall st', do_sample no_passwd 1 (proc_with "9" 9 500 500 2000) demo_after1 = Ok st' ->
               user_table st' = user_table demo_after1) /\
  ((forall names, proc_dir (proc_with "9" 9 500 500 2000) = Some names ->
                  Forall (fun d => exists r, scan_name d 0 = Ok r) names) ->
   exists st', do_sample no_passwd 1 (proc_with "9" 9 500 500 2000) demo_after1 = Ok st').
Proof.
  refine (baseline_credits_nobody no_passwd 1 (proc_with "9"%string 9 500 500 2000)
            demo_after1 _). lia.
Defined.

(** X6: process 7 appears after the baseline with 100 jiffies. *)
Lemma new_process_full_attribution_witness :
  exists st',
    do_entry no_passwd 0 (proc_with "7" 7 60 40 1000) "7" demo_start = Ok st' /\
    cpu_of 1000 st' = cpu_of 1000 demo_start + 100 * 1000 / hz demo_start /\
    (forall u, u <> 1000 -> cpu_of u st' = cpu_of u demo_start) /\
    slot_at st' 7 = PidSlot.mk 1 1000 100.
Proof.
  refine (new_process_full_attribution no_passwd (proc_with "7"%string 7 60 40 1000)
            "7"%string 7 1000 100 demo_start _ _ _ _ _ _);
    unfold observes; repeat split; settle.
Defined.

(** X8 and X9: the sample that enters user 1000. *)
Lemma owners_stay_distinct_witness :
  owners_distinct demo_after1 /\ user_count demo_after1 <= MAX_USERS.
Proof.
  refine (owners_stay_distinct no_passwd 0 (proc_with "7"%string 7 80 50 1000)
            demo_recorded demo_after1 _ _ _); settle.
  constructor.
Defined.

Lemma names_stay_short_witness : names_fit demo_after1.
Proof.
  refine (names_stay_short no_passwd 0 (proc_with "7"%string 7 80 50 1000)
            demo_recorded demo_after1 _ _); settle.
  constructor.
Defined.

(** X10: 4096 owners are known and process 7 belongs to user 5000. *)
Lemma full_table_drops_owner_witness :
  exists st',
    do_entry no_passwd 0 (proc_with "7" 7 60 40 5000) "7" full_state = Ok st' /\
    user_table st' = user_table full_state /\
    slot_at st' 7 = PidSlot.mk 1 5000 100.
Proof.
  refine (full_table_drops_owner no_passwd (proc_with "7"%string 7 60 40 5000)
            "7"%string 7 5000 100 full_state _ _ _ _ _);
    unfold observes; repeat split; settle.
Defined.

(** X13: two sorting routines on a table whose positive times differ. *)
Lemma report_independent_of_qsort_witness :
  report insertion_sort tied_state = report reverse_insertion_sort tied_state.
Proof.
  refine (report_independent_of_qsort insertion_sort reverse_insertion_sort tied_state
            insertion_sort_contract reverse_insertion_sort_contract _).
  cbn. constructor; [intros [H | []]; discriminate H|].
  constructor; [intros [] | constructor].
Defined.

(** X14: the baseline pass from the initial tables. *)
Lemma slots_stay_ok_witness :
  slots_ok demo_recorded /\
  (forall pid, PidSlot.active (slot_at demo_start pid) <> 0 ->
               PidSlot.active (slot_at demo_recorded pid) <> 0).
Proof.
  refine (slots_stay_ok no_passwd 1 (proc_with "7"%string 7 60 40 1000)
            demo_start demo_recorded demo_start_slots_ok _); settle.
Defined.

(** X15: process 7 goes from 100 to 130 jiffies. *)
Lemma known_process_delta_witness :
  exists st',
    do_entry no_passwd 0 (proc_with "7" 7 80 50 1000) "7" demo_recorded = Ok st' /\
    cpu_of 1000 st' =
      cpu_of 1000 demo_recorded
      + (130 - PidSlot.prev_jiffies (slot_at demo_recorded 7)) * 1000 / hz demo_recorded /\
    (forall u, u <> 1000 -> cpu_of u st' = cpu_of u demo_recorded) /\
    slot_at st' 7 = PidSlot.mk (PidSlot.active (slot_at demo_recorded 7)) 1000 130.
Proof.
  refine (known_process_delta no_passwd (proc_with "7"%string 7 80 50 1000)
            "7"%string 7 1000 130 demo_recorded _ _ _ _ _ _ _ _);
    unfold observes; repeat split; settle.
Defined.
